(** * EV charging network optimisation: sites, network spillover, feasibility
      and the pairwise local search.

    The Python sources are embedded shallowly.  Python [float] values are
    idealised as real numbers ([R]); Python [int] values are [Z].  Mutable
    objects held in [self.sites] are addressed by their index in the list, so
    that two names for the same object are two equal indices. *)

From Stdlib Require Import Reals.Reals Lra Lia ZArith List Bool Arith Sorted.
Import ListNotations.

Open Scope R_scope.

(** ** Python results and a small error monad *)

Inductive PyError : Type :=
| TypeError
| AttributeError
| AssertionError
| IndexError
| OverflowError
| ValueError.

Inductive PyResult (A : Type) : Type :=
| Ok (a : A)
| Raise (e : PyError).

Arguments Ok {A} a.
Arguments Raise {A} e.

Definition bind {A B : Type} (m : PyResult A) (k : A -> PyResult B) : PyResult B :=
  match m with
  | Ok a => k a
  | Raise e => Raise e
  end.

Notation "x <- m ;; k" := (bind m (fun x => k))
  (at level 61, m at next level, right associativity).

(** [for x in l: s = body x s], stopping at the first exception. *)
Fixpoint for_in {S A : Type} (l : list A) (body : A -> S -> PyResult S) (s : S)
  : PyResult S :=
  match l with
  | [] => Ok s
  | x :: rest => s' <- body x s ;; for_in rest body s'
  end.

(** ** Python built-ins used by the sources *)

(** [range(a, b)] *)
Definition py_range (a b : Z) : list Z :=
  map (fun k => (a + Z.of_nat k)%Z) (seq 0 (Z.to_nat (b - a))).

(** [sum(...)] over floats: starts from 0 and adds from the left. *)
Definition py_sum (l : list R) : R := fold_left Rplus l 0.

(** [sum(...)] over ints. *)
Definition py_sum_int (l : list Z) : Z := fold_left Z.add l 0%Z.

(** [math.factorial(k)] as a float operand. *)
Definition factorial (k : Z) : R := INR (fact (Z.to_nat k)).

(** [x ** k] for an int exponent [k >= 0]. *)
Definition py_pow (x : R) (k : Z) : R := pow x (Z.to_nat k).

(** [np.exp] and [np.sum] over a one-dimensional array. *)
Definition np_exp (a : list R) : list R := map exp a.
Definition np_sum (a : list R) : R := fold_left Rplus a 0.

(** Elementwise product of two arrays of the same length. *)
Definition np_mul (a b : list R) : list R :=
  map (fun p => fst p * snd p) (combine a b).

(** [np.min] of an array; an empty array raises [ValueError]. *)
Definition np_min (a : list R) : PyResult R :=
  match a with
  | [] => Raise ValueError
  | x :: rest => Ok (fold_left Rmin rest x)
  end.

(** Replace the element at index [i]; out of range leaves the list alone
    (the sources only write through objects that are in the list). *)
Fixpoint list_set {A : Type} (i : nat) (x : A) (l : list A) : list A :=
  match l, i with
  | [], _ => []
  | _ :: rest, O => x :: rest
  | y :: rest, S i' => y :: list_set i' x rest
  end.

(** ** models/geolocation.py *)

Record GeoLocation : Type := mkGeoLocation {
  lat : R;
  long : R
}.

(** [GeoLocation.validate]: two assertions, both written on [self.lat]. *)
Definition validate (g : GeoLocation) : PyResult unit :=
  if Rle_dec (-90) (lat g) then
    if Rle_dec (lat g) 90 then
      if Rle_dec (-180) (lat g) then
        if Rle_dec (lat g) 180 then Ok tt
        else Raise AssertionError
      else Raise AssertionError
    else Raise AssertionError
  else Raise AssertionError.

Record ReferenceGeoLocation : Type := mkReferenceGeoLocation {
  ref_location : GeoLocation;
  neighborhood_radius : R;
  min_supply : Z;
  neighborhood_sites : list nat
}.

(** ** models/site.py *)

Record EVChargingSite : Type := mkSite {
  fixed_cost : R;
  variable_cost : R;
  unit_revenue : R;
  arrival_rate : R;
  effective_arrival_rate : R;
  mean_charging_time : R;
  num_charging_stations : Z;
  max_capacity : Z;
  min_capacity : Z;
  geolocation : GeoLocation
}.

Definition set_num_charging_stations (n : Z) (s : EVChargingSite) : EVChargingSite :=
  mkSite (fixed_cost s) (variable_cost s) (unit_revenue s) (arrival_rate s)
         (effective_arrival_rate s) (mean_charging_time s) n
         (max_capacity s) (min_capacity s) (geolocation s).

Definition set_effective_arrival_rate (r : R) (s : EVChargingSite) : EVChargingSite :=
  mkSite (fixed_cost s) (variable_cost s) (unit_revenue s) (arrival_rate s)
         r (mean_charging_time s) (num_charging_stations s)
         (max_capacity s) (min_capacity s) (geolocation s).

(** [expected_utilization], the formula in exact arithmetic; the exceptions
    float arithmetic raises on it are in [expected_utilization_checked]. *)
Definition expected_utilization (s : EVChargingSite) : R :=
  let utilization_factor := effective_arrival_rate s * mean_charging_time s in
  let normalization_constant :=
    1 + py_sum (map (fun k => py_pow utilization_factor k / factorial k)
                    (py_range 1 (num_charging_stations s + 1))) in
  py_sum (map (fun k => py_pow utilization_factor k / factorial (k - 1))
              (py_range 1 (num_charging_stations s + 1)))
  / normalization_constant.

Definition expected_percentage_utilization (s : EVChargingSite) : R :=
  expected_utilization s / IZR (num_charging_stations s) * 100.

Definition profit (s : EVChargingSite) : R :=
  let revenue := unit_revenue s * expected_utilization s in
  let cost := variable_cost s * IZR (num_charging_stations s) - fixed_cost s in
  revenue - cost.

(** ** models/network.py *)

Record EVChargingNetwork : Type := mkNetwork {
  sites : list EVChargingSite;
  gamma : R;
  distance_matrix : list (list R)
}.

Definition set_sites (ss : list EVChargingSite) (net : EVChargingNetwork)
  : EVChargingNetwork :=
  mkNetwork ss (gamma net) (distance_matrix net).

(** [np.zeros((r, c))] and an indexed store [m[i, j] = v]. *)
Definition np_zeros2 (r c : nat) : list (list R) := repeat (repeat 0 c) r.

Definition matrix_set (i j : nat) (v : R) (m : list (list R)) : list (list R) :=
  list_set i (list_set j v (nth i m [])) m.

Definition matrix_get (m : list (list R)) (i j : nat) : R := nth j (nth i m []) 0.

Section GreatCircle.

(** The [haversine] package: great-circle distance of two (lat, long) pairs. *)
Variable haversine : R * R -> R * R -> R.

Definition distance (a b : GeoLocation) : R :=
  haversine (lat a, long a) (lat b, long b).

(** Inner loop of [_compute_distance_matrix]: [for j in range(i + 1, num_sites)]. *)
Definition distance_row_loop (ss : list EVChargingSite) (i : nat)
           (site_i : EVChargingSite) (m : list (list R)) : list (list R) :=
  fold_left
    (fun m j =>
       let d := distance (geolocation site_i) (geolocation (nth j ss site_i)) in
       matrix_set j i d (matrix_set i j d m))
    (seq (S i) (length ss - S i)) m.

Definition _compute_distance_matrix (ss : list EVChargingSite) : list (list R) :=
  let num_sites := length ss in
  fold_left
    (fun m i =>
       match nth_error ss i with
       | Some site_i => distance_row_loop ss i site_i m
       | None => m
       end)
    (seq 0 num_sites) (np_zeros2 num_sites num_sites).

End GreatCircle.

(** The divisor of the spillover formula, as the numpy expression computes it:
    [(np.exp(-gamma * row ** 2) * np.array([other.n / site.n ...])).sum()]. *)
Definition spillover_divisor (g : R) (row : list R)
           (ss : list EVChargingSite) (site : EVChargingSite) : R :=
  np_sum
    (np_mul
       (np_exp (map (fun d => - g * d ^ 2) row))
       (map (fun other =>
               IZR (num_charging_stations other) / IZR (num_charging_stations site))
            ss)).

(** One iteration of the loop of [update_effective_arrival_rates]: the site
    object at index [i] is rewritten in place when its count is truthy. *)
Definition update_site_rate (g : R) (dm : list (list R))
           (ss : list EVChargingSite) (i : nat) : list EVChargingSite :=
  match nth_error ss i with
  | Some site =>
      if (num_charging_stations site =? 0)%Z then ss
      else
        list_set i
          (set_effective_arrival_rate
             (arrival_rate site / spillover_divisor g (nth i dm []) ss site) site)
          ss
  | None => ss
  end.

Definition update_effective_arrival_rates (net : EVChargingNetwork)
  : EVChargingNetwork :=
  set_sites
    (fold_left (update_site_rate (gamma net) (distance_matrix net))
               (seq 0 (length (sites net))) (sites net))
    net.

Definition total_charging_stations (net : EVChargingNetwork) : Z :=
  py_sum_int (map num_charging_stations (sites net)).

Definition total_expected_utilization (net : EVChargingNetwork) : R :=
  py_sum (map expected_utilization (sites net)).

Definition total_profit (net : EVChargingNetwork) : R :=
  py_sum (map profit (sites net)).

(** [EVChargingNetwork.__init__] *)
Definition new_network (haversine : R * R -> R * R -> R)
           (ss : list EVChargingSite) (g : R) : EVChargingNetwork :=
  update_effective_arrival_rates
    (mkNetwork ss g (_compute_distance_matrix haversine ss)).

(** ** algorithm/optimized_network.py *)

Record OptimizedEVChargingNetwork : Type := mkOptimized {
  network : EVChargingNetwork;
  reference_locations : list ReferenceGeoLocation;
  budget : Z;
  epsilon : R;
  sampling_temperature : R;
  num_local_search_iters : nat;
  local_search_history : list R
}.

Definition set_network (net : EVChargingNetwork) (self : OptimizedEVChargingNetwork)
  : OptimizedEVChargingNetwork :=
  mkOptimized net (reference_locations self) (budget self) (epsilon self)
              (sampling_temperature self) (num_local_search_iters self)
              (local_search_history self).

Definition append_history (v : R) (self : OptimizedEVChargingNetwork)
  : OptimizedEVChargingNetwork :=
  mkOptimized (network self) (reference_locations self) (budget self) (epsilon self)
              (sampling_temperature self) (num_local_search_iters self)
              (local_search_history self ++ [v]).

(** [site.num_charging_stations = n] for the site object at index [i]. *)
Definition assign_stations (i : nat) (n : Z) (net : EVChargingNetwork)
  : EVChargingNetwork :=
  match nth_error (sites net) i with
  | Some site => set_sites (list_set i (set_num_charging_stations n site) (sites net)) net
  | None => net
  end.

(** *** Python values met while evaluating [_is_feasible] *)

(** What [np.all] does with an object it cannot turn into a numeric array
    changed between the two major numpy lines: before 2.0 the reduction of an
    object array evaluates to one of its arguments, from 2.0 on it is a
    boolean. *)
Inductive NumpyVersion : Type := Numpy1 | Numpy2.

(** A generator carries the items it would yield if something iterated it. *)
Inductive PyVal : Type :=
| VInt (z : Z)
| VBool (b : bool)
| VGenerator (items : list (PyResult bool)).

Definition truthy (x : PyVal) : bool :=
  match x with
  | VInt z => negb (z =? 0)%Z
  | VBool b => b
  | VGenerator _ => true
  end.

Definition np_all (v : NumpyVersion) (x : PyVal) : PyVal :=
  match x with
  | VGenerator _ =>
      match v with
      | Numpy1 => x
      | Numpy2 => VBool true
      end
  | _ => VBool (truthy x)
  end.

Definition int_of_bool (b : bool) : Z := if b then 1%Z else 0%Z.

(** The operator [&]. *)
Definition py_bitand (x y : PyVal) : PyResult PyVal :=
  match x, y with
  | VInt a, VInt b => Ok (VInt (Z.land a b))
  | VInt a, VBool b => Ok (VInt (Z.land a (int_of_bool b)))
  | VBool a, VInt b => Ok (VInt (Z.land (int_of_bool a) b))
  | VBool a, VBool b => Ok (VBool (a && b))
  | _, _ => Raise TypeError
  end.

(** The operator [<=]. *)
Definition py_le (x y : PyVal) : PyResult bool :=
  match x, y with
  | VInt a, VInt b => Ok (a <=? b)%Z
  | VInt a, VBool b => Ok (a <=? int_of_bool b)%Z
  | VBool a, VInt b => Ok (int_of_bool a <=? b)%Z
  | VBool a, VBool b => Ok (int_of_bool a <=? int_of_bool b)%Z
  | _, _ => Raise TypeError
  end.

(** [sum(self.sites[i].num_charging_stations for i in location.neighborhood_sites)].
    Neighbourhoods are built by enumerating the site list, so they hold
    indices of sites only; an index outside the list contributes nothing
    here. *)
Definition neighborhood_supply (ss : list EVChargingSite) (idx : list nat) : Z :=
  py_sum_int
    (map (fun i => match nth_error ss i with
                   | Some site => num_charging_stations site
                   | None => 0%Z
                   end) idx).

(** The four generator expressions of [_is_feasible].  The first two read the
    attributes [max_capaicty] and [min_capaicty], which no site has. *)
Definition gen_max_capacity (ss : list EVChargingSite) : PyVal :=
  VGenerator (map (fun _ => Raise AttributeError) ss).

Definition gen_min_capacity (ss : list EVChargingSite) : PyVal :=
  VGenerator (map (fun _ => Raise AttributeError) ss).

Definition gen_min_supply (ss : list EVChargingSite)
           (refs : list ReferenceGeoLocation) : PyVal :=
  VGenerator
    (map (fun location =>
            Ok (min_supply location
                <=? neighborhood_supply ss (neighborhood_sites location))%Z)
         refs).

Definition gen_isinstance_int (ss : list EVChargingSite) : PyVal :=
  VGenerator (map (fun _ => Ok true) ss).

(** [_is_feasible]: [&] binds tighter than [<=], so the expression is
    [total <= (budget & np.all(..) & np.all(..) & np.all(..) & np.all(..))]. *)
Definition _is_feasible (v : NumpyVersion) (self : OptimizedEVChargingNetwork)
  : PyResult bool :=
  let ss := sites (network self) in
  let total := VInt (total_charging_stations (network self)) in
  r1 <- py_bitand (VInt (budget self)) (np_all v (gen_max_capacity ss)) ;;
  r2 <- py_bitand r1 (np_all v (gen_min_capacity ss)) ;;
  r3 <- py_bitand r2 (np_all v (gen_min_supply ss (reference_locations self))) ;;
  r4 <- py_bitand r3 (np_all v (gen_isinstance_int ss)) ;;
  py_le total r4.

(** The feasibility predicate as the specification words it: budget, capacity
    bounds, coverage and non-negative counts, all four together. *)
Definition feasible_spec (self : OptimizedEVChargingNetwork) : bool :=
  let ss := sites (network self) in
  (total_charging_stations (network self) <=? budget self)%Z
  && forallb (fun site =>
                (min_capacity site <=? num_charging_stations site)%Z
                && (num_charging_stations site <=? max_capacity site)%Z) ss
  && forallb (fun location =>
                (min_supply location
                 <=? neighborhood_supply ss (neighborhood_sites location))%Z)
             (reference_locations self)
  && forallb (fun site => (0 <=? num_charging_stations site)%Z) ss.

(** *** Relaxation step *)

(** [adjusted_max_capacity[i]]: the minimum runs over the whole row
    [self.distance_matrix[i]]. *)
Definition adjusted_max_capacity (self : OptimizedEVChargingNetwork)
           (i : nat) (site : EVChargingSite) : PyResult R :=
  let row := nth i (distance_matrix (network self)) [] in
  m <- np_min (map (fun e => epsilon self * e)
                   (np_exp (map (fun d => gamma (network self) * d ^ 2) row))) ;;
  Ok (Rmin (IZR (max_capacity site)) m).

(** The row of site [i] without its own entry. *)
Definition other_entries (i : nat) (row : list R) : list R :=
  firstn i row ++ skipn (S i) row.

(** The cap as the specification words it: the minimum is taken over the
    other sites only. *)
Definition adjusted_max_capacity_spec (self : OptimizedEVChargingNetwork)
           (i : nat) (site : EVChargingSite) : PyResult R :=
  let row := nth i (distance_matrix (network self)) [] in
  m <- np_min (np_exp (map (fun d => gamma (network self) * d ^ 2)
                           (other_entries i row))) ;;
  Ok (Rmin (IZR (max_capacity site)) (epsilon self * m)).

(** *** Relaxation: the counts written back *)

(** A Python number with the type the interpreter gives it. *)
Inductive PyNumber : Type :=
| PyInt (z : Z)
| PyFloat (x : R).

(** The operator [+] on numbers: an int is converted when the other operand
    is a float. *)
Definition py_add (a b : PyNumber) : PyNumber :=
  match a, b with
  | PyInt x, PyInt y => PyInt (x + y)
  | PyInt x, PyFloat y => PyFloat (IZR x + y)
  | PyFloat x, PyInt y => PyFloat (x + IZR y)
  | PyFloat x, PyFloat y => PyFloat (x + y)
  end.

(** [sum(...)]: starts from the int 0 and adds from the left. *)
Definition py_sum_numbers (l : list PyNumber) : PyNumber :=
  fold_left py_add l (PyInt 0).



(** Line 119, [sum(z[i, k] for k in range(num_stations))], the value assigned
    to [site.num_charging_stations]: [z] is the table [model.getAttr("x", z)]
    of the values of the variables, which the solver reports as floats. *)
Definition committed_count (z : nat -> Z -> R) (num_stations : Z) (i : nat)
  : PyNumber :=
  py_sum_numbers (map (fun k => PyFloat (z i k)) (py_range 0 num_stations)).

(** *** Pairwise reallocation *)

(** The state threaded through the two loops of [_optimize_pair]. *)
Record PairSearch : Type := mkPairSearch {
  engine : OptimizedEVChargingNetwork;
  best_solution : Z * Z;
  best_obj_val : R
}.

(** Body of the inner loop, for the site objects at indices [i] and [j]. *)
Definition try_candidate (v : NumpyVersion) (i j : nat) (z z_ : Z) (st : PairSearch)
  : PyResult PairSearch :=
  let self1 :=
    set_network (assign_stations j z_ (assign_stations i z (network (engine st))))
                (engine st) in
  feasible <- _is_feasible v self1 ;;
  if feasible then
    let self2 := set_network (update_effective_arrival_rates (network self1)) self1 in
    let obj_val := total_profit (network self2) in
    if Rgt_dec obj_val (best_obj_val st)
    then Ok (mkPairSearch self2 (z, z_) obj_val)
    else Ok (mkPairSearch self2 (best_solution st) (best_obj_val st))
  else Ok (mkPairSearch self1 (best_solution st) (best_obj_val st)).

Definition _optimize_pair (v : NumpyVersion) (self : OptimizedEVChargingNetwork)
           (i j : nat) : PyResult (OptimizedEVChargingNetwork * R) :=
  match nth_error (sites (network self)) i, nth_error (sites (network self)) j with
  | Some site, Some neighbor =>
      let start := (num_charging_stations site, num_charging_stations neighbor) in
      let num_available_stations := (fst start + snd start)%Z in
      st <- for_in (py_range (min_capacity site) (max_capacity site + 1))
              (fun z st =>
                 for_in (py_range (min_capacity neighbor)
                                  (Z.min (max_capacity neighbor)
                                         (num_available_stations - z) + 1))
                        (try_candidate v i j z) st)
              (mkPairSearch self start (total_profit (network self))) ;;
      let net' :=
        update_effective_arrival_rates
          (assign_stations j (snd (best_solution st))
             (assign_stations i (fst (best_solution st)) (network (engine st)))) in
      Ok (set_network net' (engine st), best_obj_val st)
  | _, _ => Raise IndexError
  end.

(** *** Local search *)

(** [sampling_weights] of an iteration whose first draw is [i]. *)
Definition sampling_weights (self : OptimizedEVChargingNetwork) (i : nat) : list R :=
  list_set i 0
    (map (fun d => d * sampling_temperature self)
         (nth i (distance_matrix (network self)) [])).

(** The arguments of the call [self._optimize_pair(site=..., neighbor=...)]
    for the draws [i] and [j]: both are [self.sites[j]]. *)
Definition local_search_pair (i j : nat) : nat * nat := (j, j).

(** The pair as the specification words it. *)
Definition local_search_pair_spec (i j : nat) : nat * nat := (i, j).

(** [p = sampling_weights / sampling_weights.sum()] *)
Definition sampling_probabilities (self : OptimizedEVChargingNetwork) (i : nat)
  : list R :=
  let w := sampling_weights self i in
  map (fun x => x / np_sum w) w.

Definition negative (x : R) : bool := if Rlt_dec x 0 then true else false.

(** One iteration, for the two random draws [(i, j)] of that iteration.
    [self.distance_matrix[i]] raises [IndexError] when the matrix has no row
    [i]; [np.random.choice] raises [ValueError] when there is nothing to
    choose from, when [p] has not one entry per site, when the weights sum to
    zero (the probabilities are then nan or infinite) and when a probability
    is negative. *)
Definition _local_search_iteration (v : NumpyVersion) (draw : nat * nat)
           (self : OptimizedEVChargingNetwork) : PyResult OptimizedEVChargingNetwork :=
  let i := fst draw in
  let j := snd draw in
  let num_sites := length (sites (network self)) in
  if (num_sites =? 0)%nat then Raise ValueError
  else if (length (distance_matrix (network self)) <=? i)%nat then Raise IndexError
  else if negb (length (sampling_probabilities self i) =? num_sites)%nat
  then Raise ValueError
  else if Req_dec_T (np_sum (sampling_weights self i)) 0 then Raise ValueError
  else if existsb negative (sampling_probabilities self i) then Raise ValueError
  else
    let pair := local_search_pair i j in
    r <- _optimize_pair v self (fst pair) (snd pair) ;;
    Ok (append_history (snd r) (fst r)).

(** The draws [np.random.choice] can produce in a state: a first index among
    the sites, and a second index that has a positive probability, the
    probabilities being one per site and none of them negative. *)
Definition possible_draw (self : OptimizedEVChargingNetwork) (draw : nat * nat)
  : Prop :=
  (fst draw < length (sites (network self)))%nat /\
  length (sampling_probabilities self (fst draw)) = length (sites (network self)) /\
  Forall (fun p => 0 <= p) (sampling_probabilities self (fst draw)) /\
  0 < nth (snd draw) (sampling_probabilities self (fst draw)) 0.


(** The allocation: the vector of station counts. *)
Definition allocation (net : EVChargingNetwork) : list Z :=
  map num_charging_stations (sites net).

(** The two sums of [expected_utilization], as functions of the utilization
    factor and the station count. *)
Definition utilization_numerator (u : R) (n : Z) : R :=
  py_sum (map (fun k => py_pow u k / factorial (k - 1)) (py_range 1 (n + 1))).

Definition normalization_constant (u : R) (n : Z) : R :=
  1 + py_sum (map (fun k => py_pow u k / factorial k) (py_range 1 (n + 1))).

(** What one pass of [update_effective_arrival_rates] leaves at index [i]. *)
Definition refreshed_site (net : EVChargingNetwork) (i : nat) (site : EVChargingSite)
  : EVChargingSite :=
  if (num_charging_stations site =? 0)%Z then site
  else set_effective_arrival_rate
         (arrival_rate site
          / spillover_divisor (gamma net) (nth i (distance_matrix net) []) (sites net) site)
         site.

(** The station count of the site at index [j]. *)
Definition stations (net : EVChargingNetwork) (j : nat) : Z :=
  nth j (allocation net) 0%Z.

(** The divisor as the specification words it: the sum over all sites [j] of
    [exp(-gamma * distance(i, j)^2) * (stations_j / stations_i)]. *)
Definition spillover_sum (net : EVChargingNetwork) (i : nat) : R :=
  py_sum
    (map (fun j =>
            exp (- (gamma net * (matrix_get (distance_matrix net) i j) ^ 2))
            * (IZR (stations net j) / IZR (stations net i)))
         (seq 0 (length (sites net)))).

(** Class invariant of a network: a square distance matrix over the sites with
    a zero diagonal, as [_compute_distance_matrix] builds it. *)
Definition square_matrix (n : nat) (m : list (list R)) : Prop :=
  length m = n /\ forall i, (i < n)%nat -> length (nth i m []) = n.

Definition zero_diagonal (n : nat) (m : list (list R)) : Prop :=
  forall i, (i < n)%nat -> matrix_get m i i = 0.

Definition well_formed (net : EVChargingNetwork) : Prop :=
  square_matrix (length (sites net)) (distance_matrix net) /\
  zero_diagonal (length (sites net)) (distance_matrix net).

(** *** Networks up to their effective arrival rates *)

Definition erase_rate (s : EVChargingSite) : EVChargingSite :=
  set_effective_arrival_rate 0 s.

(** Two networks with the same sites, allocation included, except possibly for
    the effective arrival rates. *)
Definition same_static (n1 n2 : EVChargingNetwork) : Prop :=
  gamma n1 = gamma n2 /\
  distance_matrix n1 = distance_matrix n2 /\
  map erase_rate (sites n1) = map erase_rate (sites n2).

(** [site.num_charging_stations, neighbor.num_charging_stations = sol] for
    the site objects at indices [i] and [j]. *)
Definition commit_pair (i j : nat) (sol : Z * Z) (net : EVChargingNetwork)
  : EVChargingNetwork :=
  assign_stations j (snd sol) (assign_stations i (fst sol) net).

(** What the loops of [_optimize_pair] maintain, relative to the network
    [net0] and the pair of counts [start] the call began with. *)
Definition pair_search_invariant (net0 : EVChargingNetwork) (i j : nat)
           (start : Z * Z) (st : PairSearch) : Prop :=
  (exists sol, same_static (network (engine st)) (commit_pair i j sol net0)) /\
  best_obj_val st
  = total_profit (update_effective_arrival_rates (commit_pair i j (best_solution st) net0)) /\
  total_profit net0 <= best_obj_val st /\
  (best_obj_val st = total_profit net0 -> best_solution st = start).

(** A network whose sites earn nothing and pay 1 for each station: its total
    profit is minus its number of stations, whatever the arrival rates. *)
Definition cost_only (net : EVChargingNetwork) : Prop :=
  Forall (fun s => unit_revenue s = 0 /\ variable_cost s = 1 /\ fixed_cost s = 0)
         (sites net).

(** ** Further definitions from the sources *)


(** *** Relaxation: the table of marginal profits *)



(** *** Coverage: the neighbourhood of a reference location *)

(** The objects handed to [GeoLocation.distance] at run time: locations, or
    the sites of the network.  A site has a [geolocation] attribute but no
    [lat] or [long] of its own. *)
Inductive PyObject : Type :=
| GeoObject (g : GeoLocation)
| SiteObject (s : EVChargingSite).

Definition attr_lat (o : PyObject) : PyResult R :=
  match o with
  | GeoObject g => Ok (lat g)
  | SiteObject _ => Raise AttributeError
  end.

Definition attr_long (o : PyObject) : PyResult R :=
  match o with
  | GeoObject g => Ok (long g)
  | SiteObject _ => Raise AttributeError
  end.

(** [traverse]: apply a fallible function along a list, left to right. *)
Fixpoint map_result {A B : Type} (f : A -> PyResult B) (l : list A)
  : PyResult (list B) :=
  match l with
  | [] => Ok []
  | x :: rest => y <- f x ;; ys <- map_result f rest ;; Ok (y :: ys)
  end.

Section Coverage.

Variable haversine : R * R -> R * R -> R.

(** [GeoLocation.distance] on an argument whose attributes are looked up at
    run time. *)
Definition distance_to (self : GeoLocation) (other : PyObject) : PyResult R :=
  other_lat <- attr_lat other ;;
  other_long <- attr_long other ;;
  Ok (haversine (lat self, long self) (other_lat, other_long)).

(** Body of the loop of [update_neighborhood_sites], on the set built so
    far (kept in insertion order). *)
Definition neighborhood_step (self : ReferenceGeoLocation) (p : nat * PyObject)
           (found : list nat) : PyResult (list nat) :=
  d <- distance_to (ref_location self) (snd p) ;;
  if Rlt_dec d (neighborhood_radius self) then Ok (found ++ [fst p]) else Ok found.

Definition update_neighborhood_sites (self : ReferenceGeoLocation)
           (objs : list PyObject) : PyResult ReferenceGeoLocation :=
  found <- for_in (combine (seq 0 (length objs)) objs) (neighborhood_step self) [] ;;
  Ok (mkReferenceGeoLocation (ref_location self) (neighborhood_radius self)
                             (min_supply self) found).

(** [OptimizedEVChargingNetwork._update_neighborhood_sites]: every reference
    location is handed [self.sites]. *)
Definition _update_neighborhood_sites (self : OptimizedEVChargingNetwork)
  : PyResult OptimizedEVChargingNetwork :=
  refs <- map_result
            (fun location =>
               update_neighborhood_sites location
                 (map SiteObject (sites (network self))))
            (reference_locations self) ;;
  Ok (mkOptimized (network self) refs (budget self) (epsilon self)
                  (sampling_temperature self) (num_local_search_iters self)
                  (local_search_history self)).

(** [OptimizedEVChargingNetwork.__init__] *)
Definition new_optimized_network (ss : list EVChargingSite)
           (refs : list ReferenceGeoLocation) (b : Z) (g eps temperature : R)
           (iters : nat) : PyResult OptimizedEVChargingNetwork :=
  _update_neighborhood_sites
    (mkOptimized (new_network haversine ss g) refs b eps temperature iters []).

(** Whether a location lies strictly within the radius of a reference
    location. *)
Definition within_radius (self : ReferenceGeoLocation) (g : GeoLocation) : bool :=
  if Rlt_dec (distance haversine (ref_location self) g) (neighborhood_radius self)
  then true else false.

End Coverage.

(** ** data/geolocation_factory.py *)

(** The part of a [shapely] polygon the factory uses: its bounding box
    [(min_long, min_lat, max_long, max_lat)] and the containment test of a
    point given as (x, y) = (long, lat). *)
Record Polygon : Type := mkPolygon {
  bounds : R * R * R * R;
  contains : R -> R -> bool
}.

Definition DEGREES_LAT_PER_KM : R := 1 / (11054 / 100).
Definition DEGREES_LONG_PER_KM_AT_EQUATOR : R := 1 / (11132 / 100).

(** The inner loop of [get_uniform_locations_grid], [while long < max_long];
    [fuel] bounds the number of loop tests, [None] is a loop still running. *)
Fixpoint grid_inner_loop (fuel : nat) (polygon : Polygon) (max_long radius : R)
         (lat long : R) (locations : list GeoLocation)
  : option (R * list GeoLocation) :=
  match fuel with
  | O => None
  | S fuel' =>
      if Rlt_dec long max_long then
        let locations' :=
          if contains polygon long lat
          then locations ++ [mkGeoLocation lat long] else locations in
        grid_inner_loop fuel' polygon max_long radius lat
          (long + radius * DEGREES_LONG_PER_KM_AT_EQUATOR * cos lat) locations'
      else Some (long, locations)
  end.

(** The outer loop, [while lat < max_long], whose body ends with
    [lat = min_lat] and [long += radius * DEGREES_LAT_PER_KM]. *)
Fixpoint grid_outer_loop (fuel : nat) (polygon : Polygon) (min_lat max_long radius : R)
         (lat long : R) (locations : list GeoLocation)
  : option (list GeoLocation) :=
  match fuel with
  | O => None
  | S fuel' =>
      if Rlt_dec lat max_long then
        match grid_inner_loop fuel' polygon max_long radius lat long locations with
        | None => None
        | Some (long', locations') =>
            grid_outer_loop fuel' polygon min_lat max_long radius min_lat
              (long' + radius * DEGREES_LAT_PER_KM) locations'
        end
      else Some locations
  end.

Definition get_uniform_locations_grid (fuel : nat) (polygon : Polygon)
           (neighborhood_radius : R) : option (list GeoLocation) :=
  let '(min_long, min_lat, max_long, max_lat) := bounds polygon in
  grid_outer_loop fuel polygon min_lat max_long neighborhood_radius
                  min_lat min_long [].

(** The location sampled from two draws of [np.random.rand()]. *)
Definition sampled_location (polygon : Polygon) (draw : R * R) : GeoLocation :=
  let '(min_long, min_lat, max_long, max_lat) := bounds polygon in
  mkGeoLocation (fst draw * (max_lat - min_lat) + min_lat)
                (snd draw * (max_long - min_long) + min_long).

Definition inside (polygon : Polygon) (g : GeoLocation) : bool :=
  contains polygon (long g) (lat g).

(** The loop of [get_random_locations], [while len(locations) < num_locations],
    for the stream of pairs of random draws it consumes; [None] is a loop
    that has used up the stream and is still running. *)
Fixpoint random_locations_loop (polygon : Polygon) (num_locations : Z)
         (draws : list (R * R)) (locations : list GeoLocation)
  : option (list GeoLocation) :=
  if (Z.of_nat (length locations) <? num_locations)%Z then
    match draws with
    | [] => None
    | draw :: rest =>
        let g := sampled_location polygon draw in
        random_locations_loop polygon num_locations rest
          (if inside polygon g then locations ++ [g] else locations)
    end
  else Some locations.

Definition get_random_locations (polygon : Polygon) (num_locations : Z)
           (draws : list (R * R)) : option (list GeoLocation) :=
  random_locations_loop polygon num_locations draws [].

(** ** data/network_factory.py *)

(** [l[i]] on a Python list, for an index that is not negative. *)
Definition list_index {A : Type} (l : list A) (i : nat) : PyResult A :=
  match nth_error l i with
  | Some x => Ok x
  | None => Raise IndexError
  end.

Section Correlation.

Variable haversine : R * R -> R * R -> R.

(** The right-hand side of the assignment in the loops of [generate_sites]. *)
Definition correlation_entry (g : R) (site_location : list GeoLocation)
           (i j : nat) : PyResult R :=
  a <- list_index site_location i ;;
  b <- list_index site_location j ;;
  Ok (exp (- g * (distance haversine a b) ^ 2)).

(** [correlation_matrix[i, j] = correlation_matrix[j, i] = ...] *)
Definition correlation_step (g : R) (site_location : list GeoLocation)
           (i j : nat) (m : list (list R)) : PyResult (list (list R)) :=
  value <- correlation_entry g site_location i j ;;
  Ok (matrix_set j i value (matrix_set i j value m)).

(** The correlation matrix of [generate_sites], for the locations drawn:
    [for i in range(num_sites): for j in range(num_sites + 1)]. *)
Definition correlation_matrix (g : R) (site_location : list GeoLocation)
  : PyResult (list (list R)) :=
  let num_sites := length site_location in
  for_in (seq 0 num_sites)
         (fun i m => for_in (seq 0 (num_sites + 1))
                            (correlation_step g site_location i) m)
         (np_zeros2 num_sites num_sites).

End Correlation.

(** ** models/site.py: the range checks of float arithmetic *)

(** [math.factorial(k)], a Python int of any size. *)
Definition math_factorial (k : Z) : Z :=
  fold_left Z.mul (py_range 1 (k + 1)) 1%Z.

(** The ints from which Python makes a float: an int that rounds to 2^1024 or
    more raises [OverflowError] when an operator converts it. *)
Definition float_limit : Z := (2 ^ 1024 - 2 ^ 970)%Z.

Definition float_of_int (z : Z) : PyResult R :=
  if (Z.abs z <? float_limit)%Z then Ok (IZR z) else Raise OverflowError.

(** [x ** k] on a float: [OverflowError] when the result leaves the range. *)
Definition float_pow (x : R) (k : Z) : PyResult R :=
  if Rlt_dec (Rabs (py_pow x k)) (IZR float_limit) then Ok (py_pow x k)
  else Raise OverflowError.

(** [sum(term(k) for k in ks)] when computing a term can raise. *)
Definition sum_terms (term : Z -> PyResult R) (ks : list Z) : PyResult R :=
  for_in ks (fun k acc => t <- term k ;; Ok (acc + t)) 0.

(** [utilization_factor ** k / factorial(m)] *)
Definition utilization_term (u : R) (k m : Z) : PyResult R :=
  p <- float_pow u k ;;
  f <- float_of_int (math_factorial m) ;;
  Ok (p / f).

(** [expected_utilization] with the exceptions of float arithmetic, for a
    site whose rates and times are Python floats, as the constructor
    annotates them: the power and the conversion of the factorial raise
    [OverflowError] out of the float range.  What is not modelled is the
    rounding of each operation, and a sum that leaves the range (it becomes
    inf without an exception): a value that is returned is the exact real
    value of the formula. *)
Definition expected_utilization_checked (s : EVChargingSite) : PyResult R :=
  let utilization_factor := effective_arrival_rate s * mean_charging_time s in
  let ks := py_range 1 (num_charging_stations s + 1) in
  total <- sum_terms (fun k => utilization_term utilization_factor k k) ks ;;
  let normalization_constant := 1 + total in
  numerator <- sum_terms (fun k => utilization_term utilization_factor k (k - 1)) ks ;;
  Ok (numerator / normalization_constant).

(** ** Concrete inputs used below *)

Definition origin : GeoLocation := mkGeoLocation 0 0.

(** A site with unit economics, [n] stations and capacity bounds [lo], [hi]. *)
Definition simple_site (n lo hi : Z) : EVChargingSite :=
  mkSite 1 1 1 1 1 1 n hi lo origin.

(** A single site holding 2 stations within bounds [0, 3], budget 4, no
    coverage requirement. *)
Definition feasible_engine : OptimizedEVChargingNetwork :=
  mkOptimized (mkNetwork [simple_site 2 0 3] 1 [[0]]) [] 4 (5 / 100) 1 100 [].

(** A single site holding 1 station although its maximum capacity is 0,
    budget 1. *)
Definition over_capacity_engine : OptimizedEVChargingNetwork :=
  mkOptimized (mkNetwork [simple_site 1 0 0] 1 [[0]]) [] 1 (5 / 100) 1 100 [].

(** Two sites one distance unit apart, with [gamma = 1] and [epsilon = 1]. *)
Definition two_site_engine : OptimizedEVChargingNetwork :=
  mkOptimized (mkNetwork [simple_site 0 0 10; simple_site 0 0 10] 1 [[0; 1]; [1; 0]])
              [] 4 1 1 100 [].

(** A point on the equator whose longitude is 200 degrees. *)
Definition far_east : GeoLocation := mkGeoLocation 0 200.

(** Two sites one distance unit apart holding 2 and 1 stations. *)
Definition two_site_network : EVChargingNetwork :=
  mkNetwork [simple_site 2 0 3; simple_site 1 0 3] 1 [[0; 1]; [1; 0]].


(** The flat-earth stand-in for the great-circle distance used in concrete
    runs: the absolute difference of the longitudes. *)
Definition longitude_gap (a b : R * R) : R := Rabs (snd a - snd b).

(** Three sites on the equator at longitudes 0, 1 and 3, holding 2, 1 and 0
    stations. *)
Definition site_at (x : R) (n : Z) : EVChargingSite :=
  mkSite 1 1 1 1 1 1 n 3 0 (mkGeoLocation 0 x).

Definition three_sites : list EVChargingSite :=
  [site_at 0 2; site_at 1 1; site_at 3 0].

(** [two_site_network] with stale effective arrival rates. *)
Definition stale_two_site_network : EVChargingNetwork :=
  mkNetwork [set_effective_arrival_rate 5 (simple_site 2 0 3);
             set_effective_arrival_rate 7 (simple_site 1 0 3)]
            1 [[0; 1]; [1; 0]].

(** [feasible_engine]'s allocation under bounds and a coverage requirement it
    violates: capacity bounds [5, 1] and a reference location asking for 100
    stations around site 0. *)
Definition infeasible_engine : OptimizedEVChargingNetwork :=
  mkOptimized (mkNetwork [simple_site 2 5 1] 1 [[0]])
              [mkReferenceGeoLocation origin 1 100 [0%nat]] 4 (5 / 100) 1 100 [].

(** A reference location at the origin with radius 2 and a stale
    neighbourhood, and three locations at longitudes 0, 1 and 3. *)
Definition centre : ReferenceGeoLocation :=
  mkReferenceGeoLocation origin 2 1 [7%nat].

Definition three_locations : list GeoLocation :=
  [mkGeoLocation 0 0; mkGeoLocation 0 1; mkGeoLocation 0 3].

(** The unit square, and a polygon that contains no point. *)
Definition unit_square : Polygon :=
  mkPolygon (0, 0, 1, 1) (fun _ _ => true).

(** A box on the northern hemisphere west of Greenwich: latitudes 40 to 41,
    longitudes -75 to -74. *)
Definition western_box : Polygon :=
  mkPolygon (-75, 40, -74, 41) (fun _ _ => true).


(** A site that earns nothing and pays 1 per station: its profit is minus
    its station count. *)
Definition costly_site (n lo hi : Z) : EVChargingSite :=
  mkSite 0 1 0 1 1 1 n hi lo origin.

(** Two such sites one distance unit apart: the first holds no station and
    can hold none, the second holds 1 station within bounds [0, 1]; the
    budget is 1. *)
Definition moving_network : EVChargingNetwork :=
  mkNetwork [costly_site 0 0 0; costly_site 1 0 1] 1 [[0; 1]; [1; 0]].

Definition moving_engine : OptimizedEVChargingNetwork :=
  mkOptimized moving_network [] 1 (5 / 100) 1 100 [].

(** ** Basic facts about the built-ins *)

Lemma py_sum_nil : py_sum [] = 0.
Proof. reflexivity. Qed.

Lemma fold_left_Rplus_acc (l : list R) (a : R) :
  fold_left Rplus l a = a + fold_left Rplus l 0.
Proof.
  revert a; induction l as [|x l IH]; intros a; simpl.
  - lra.
  - rewrite IH, (IH (0 + x)). lra.
Qed.

Lemma py_sum_cons (x : R) (l : list R) : py_sum (x :: l) = x + py_sum l.
Proof.
  unfold py_sum; simpl. rewrite fold_left_Rplus_acc. lra.
Qed.

Lemma py_sum_snoc (l : list R) (x : R) : py_sum (l ++ [x]) = py_sum l + x.
Proof.
  unfold py_sum. rewrite fold_left_app. reflexivity.
Qed.

Lemma py_sum_nonneg (l : list R) :
  Forall (fun x => 0 <= x) l -> 0 <= py_sum l.
Proof.
  induction 1 as [|x l Hx _ IH].
  - rewrite py_sum_nil; lra.
  - rewrite py_sum_cons; lra.
Qed.

Lemma py_sum_ext_in {A : Type} (f g : A -> R) (l : list A) :
  (forall a, In a l -> f a = g a) -> py_sum (map f l) = py_sum (map g l).
Proof.
  intros H. f_equal. apply map_ext_in, H.
Qed.

Lemma py_range_empty (a b : Z) : (b <= a)%Z -> py_range a b = [].
Proof.
  intros H. unfold py_range.
  replace (Z.to_nat (b - a)) with 0%nat by lia. reflexivity.
Qed.

Lemma py_range_snoc (a b : Z) :
  (a <= b)%Z -> py_range a (b + 1) = py_range a b ++ [b].
Proof.
  intros H. unfold py_range.
  replace (Z.to_nat (b + 1 - a)) with (S (Z.to_nat (b - a))) by lia.
  rewrite seq_S, map_app. simpl. repeat f_equal. lia.
Qed.

Lemma py_range_In (a b k : Z) : In k (py_range a b) <-> (a <= k < b)%Z.
Proof.
  unfold py_range. rewrite in_map_iff. split.
  - intros (n & <- & Hn). apply in_seq in Hn. lia.
  - intros H. exists (Z.to_nat (k - a)). split; [lia|].
    apply in_seq. lia.
Qed.

(** ** Site: expected utilization *)

Lemma expected_utilization_unfold (s : EVChargingSite) :
  expected_utilization s =
  utilization_numerator (effective_arrival_rate s * mean_charging_time s)
                        (num_charging_stations s)
  / normalization_constant (effective_arrival_rate s * mean_charging_time s)
                           (num_charging_stations s).
Proof. reflexivity. Qed.

Lemma factorial_pos (k : Z) : 0 < factorial k.
Proof.
  unfold factorial. apply lt_0_INR, Nat.neq_0_lt_0, fact_neq_0.
Qed.

Lemma factorial_succ (n : Z) :
  (0 <= n)%Z -> factorial (n + 1) = IZR (n + 1) * factorial n.
Proof.
  intros Hn. unfold factorial.
  replace (Z.to_nat (n + 1)) with (S (Z.to_nat n)) by lia.
  rewrite fact_simpl, mult_INR, S_INR, INR_IZR_INZ, Z2Nat.id by lia.
  rewrite plus_IZR. reflexivity.
Qed.

Lemma py_pow_nonneg (u : R) (k : Z) : 0 <= u -> 0 <= py_pow u k.
Proof. intros Hu. unfold py_pow. apply pow_le, Hu. Qed.

Lemma utilization_numerator_zero (u : R) : utilization_numerator u 0 = 0.
Proof. reflexivity. Qed.

Lemma normalization_constant_zero (u : R) : normalization_constant u 0 = 1.
Proof. unfold normalization_constant; simpl. rewrite py_sum_nil. lra. Qed.

Lemma utilization_numerator_succ (u : R) (n : Z) :
  (0 <= n)%Z ->
  utilization_numerator u (n + 1) =
  utilization_numerator u n + IZR (n + 1) * (py_pow u (n + 1) / factorial (n + 1)).
Proof.
  intros Hn. unfold utilization_numerator.
  rewrite (py_range_snoc 1 (n + 1)) by lia.
  rewrite map_app. cbn [map]. rewrite py_sum_snoc. f_equal.
  replace (n + 1 - 1)%Z with n by lia.
  rewrite factorial_succ by lia.
  pose proof (factorial_pos n).
  assert (IZR (n + 1) <> 0) by (apply not_0_IZR; lia).
  field. split; lra.
Qed.

Lemma normalization_constant_succ (u : R) (n : Z) :
  (0 <= n)%Z ->
  normalization_constant u (n + 1) =
  normalization_constant u n + py_pow u (n + 1) / factorial (n + 1).
Proof.
  intros Hn. unfold normalization_constant.
  rewrite (py_range_snoc 1 (n + 1)) by lia.
  rewrite map_app. cbn [map]. rewrite py_sum_snoc. lra.
Qed.

Lemma term_nonneg (u : R) (k : Z) : 0 <= u -> 0 <= py_pow u k / factorial k.
Proof.
  intros Hu. apply Rmult_le_pos.
  - apply py_pow_nonneg, Hu.
  - left. apply Rinv_0_lt_compat, factorial_pos.
Qed.

(** The numerator weighs the k-th term by [k <= n]. *)
Lemma numerator_bound (u : R) (n : Z) :
  0 <= u -> (0 <= n)%Z ->
  1 <= normalization_constant u n /\
  utilization_numerator u n <= IZR n * (normalization_constant u n - 1).
Proof.
  intros Hu Hn. pattern n. apply natlike_ind; [| |exact Hn].
  - rewrite utilization_numerator_zero, normalization_constant_zero. lra.
  - intros m Hm [IH1 IH2]. unfold Z.succ.
    rewrite utilization_numerator_succ, normalization_constant_succ by lia.
    pose proof (term_nonneg u (m + 1) Hu) as Ht.
    assert (0 <= IZR m) by (apply IZR_le; lia).
    rewrite plus_IZR in *. split; [lra|]. nra.
Qed.

(** In exact arithmetic: for a non-negative effective arrival rate and a
    non-negative mean charging time, the value of the formula of
    [expected_utilization] does not decrease when one station is added,
    everything else held fixed. *)
Theorem expected_utilization_monotone (s : EVChargingSite) (n : Z) :
  0 <= effective_arrival_rate s ->
  0 <= mean_charging_time s ->
  (0 <= n)%Z ->
  expected_utilization (set_num_charging_stations n s)
  <= expected_utilization (set_num_charging_stations (n + 1) s).
Proof.
  intros Hr Ht Hn.
  rewrite !expected_utilization_unfold. simpl.
  set (u := effective_arrival_rate s * mean_charging_time s).
  assert (Hu : 0 <= u) by (apply Rmult_le_pos; assumption).
  destruct (numerator_bound u n Hu Hn) as [HD HN].
  rewrite utilization_numerator_succ, normalization_constant_succ by lia.
  pose proof (term_nonneg u (n + 1) Hu) as Ha.
  set (a := py_pow u (n + 1) / factorial (n + 1)) in *.
  set (N := utilization_numerator u n) in *.
  set (D := normalization_constant u n) in *.
  assert (Hn' : 0 <= IZR n) by (apply IZR_le; lia).
  rewrite plus_IZR in *.
  apply Rminus_le. 
  replace (N / D - (N + (IZR n + 1) * a) / (D + a))
    with (- (a * ((IZR n + 1) * D - N) / (D * (D + a)))) by (field; lra).
  assert (0 <= a * ((IZR n + 1) * D - N)) by (apply Rmult_le_pos; nra).
  assert (0 < D * (D + a)) by nra.
  assert (0 <= a * ((IZR n + 1) * D - N) / (D * (D + a))).
  { apply Rmult_le_pos; [assumption|]. left. apply Rinv_0_lt_compat. assumption. }
  lra.
Qed.

(** C8: a site without stations has expected utilization exactly 0, whatever
    its other attributes are. *)
Theorem expected_utilization_no_stations (s : EVChargingSite) :
  num_charging_stations s = 0%Z -> expected_utilization s = 0.
Proof.
  intros H. rewrite expected_utilization_unfold, H.
  rewrite utilization_numerator_zero, normalization_constant_zero. lra.
Qed.

Lemma expected_utilization_monotone_witness :
  expected_utilization (set_num_charging_stations 2 (simple_site 0 0 3))
  <= expected_utilization (set_num_charging_stations (2 + 1) (simple_site 0 0 3)).
Proof.
  apply expected_utilization_monotone; simpl; try lra; lia.
Defined.

Lemma expected_utilization_no_stations_witness :
  expected_utilization (simple_site 0 0 3) = 0.
Proof.
  apply expected_utilization_no_stations. reflexivity.
Defined.

(** ** GeoLocation.validate *)

(** Both assertions read the latitude, so the outcome is decided by the
    latitude alone. *)
Lemma validate_checks_latitude_only (g : GeoLocation) :
  validate g = Ok tt <-> -90 <= lat g <= 90.
Proof.
  unfold validate.
  destruct (Rle_dec (-90) (lat g)), (Rle_dec (lat g) 90),
           (Rle_dec (-180) (lat g)), (Rle_dec (lat g) 180);
    split; intros H; try discriminate; try reflexivity; lra.
Qed.

(** C9, at the failing input: a location whose longitude is 200 passes
    [validate], although 200 lies outside [-180, 180]. *)
Theorem validate_accepts_longitude_out_of_range :
  validate far_east = Ok tt /\ ~ (-180 <= long far_east <= 180).
Proof.
  split.
  - apply validate_checks_latitude_only. simpl. lra.
  - simpl. lra.
Qed.

(** ** The feasibility predicate *)

Lemma land_one_idem (b : Z) : Z.land (Z.land b 1) 1 = Z.land b 1.
Proof. rewrite <- Z.land_assoc. reflexivity. Qed.

(** With a numpy before 2.0, [np.all] hands the generator back and [budget &
    generator] is a type error: the predicate raises for every allocation. *)
Lemma _is_feasible_numpy1 (self : OptimizedEVChargingNetwork) :
  _is_feasible Numpy1 self = Raise TypeError.
Proof. reflexivity. Qed.

(** With numpy 2, every [np.all] is [True] without the generator being
    iterated, and what is left is [total <= (budget & 1)]. *)
Lemma _is_feasible_numpy2 (self : OptimizedEVChargingNetwork) :
  _is_feasible Numpy2 self =
  Ok (total_charging_stations (network self) <=? Z.land (budget self) 1)%Z.
Proof.
  unfold _is_feasible. cbn [np_all gen_max_capacity gen_min_capacity gen_min_supply
                            gen_isinstance_int py_bitand bind int_of_bool py_le].
  rewrite !land_one_idem. reflexivity.
Qed.

(** C1, at the failing input: one site with 2 stations, bounds [0, 3], budget
    4 and no coverage requirement satisfies all four conditions, and
    [_is_feasible] does not return true on it. *)
Theorem _is_feasible_rejects_feasible_allocation :
  feasible_spec feasible_engine = true /\
  forall v, _is_feasible v feasible_engine <> Ok true.
Proof.
  split; [reflexivity|].
  intros [|].
  - rewrite _is_feasible_numpy1. discriminate.
  - rewrite _is_feasible_numpy2. cbn. discriminate.
Qed.

(** The other direction: a site over its maximum capacity is accepted by the
    numpy 2 reading of the expression. *)
Lemma _is_feasible_accepts_over_capacity :
  feasible_spec over_capacity_engine = false /\
  _is_feasible Numpy2 over_capacity_engine = Ok true.
Proof.
  split; [reflexivity|].
  rewrite _is_feasible_numpy2. reflexivity.
Qed.

(** ** Pair selection of the local search *)

(** C2: whatever the two draws are, the reallocation is called on site [j]
    twice; for the draws 0 and 1 this is the pair (1, 1) and not the pair
    (site 0, site 1). *)
Theorem local_search_pair_is_j_twice :
  (forall i j, local_search_pair i j = (j, j)) /\
  local_search_pair 0 1 <> local_search_pair_spec 0 1.
Proof.
  split; [reflexivity|].
  unfold local_search_pair, local_search_pair_spec. congruence.
Qed.

(** The self-weight is zero, so a draw of positive weight is another site. *)
Lemma sampling_weight_self (self : OptimizedEVChargingNetwork) (i : nat) :
  nth i (sampling_weights self i) 0 = 0.
Proof.
  unfold sampling_weights.
  generalize (map (fun d => d * sampling_temperature self)
                  (nth i (distance_matrix (network self)) [])).
  induction i as [|i IH]; intros [|x l]; simpl; auto.
Qed.

(** ** Relaxation: the adjusted capacity *)

Lemma fold_left_Rmin_spec (l : list R) (x : R) :
  (fold_left Rmin l x = x \/ In (fold_left Rmin l x) l) /\
  fold_left Rmin l x <= x /\
  (forall y, In y l -> fold_left Rmin l x <= y).
Proof.
  revert x; induction l as [|a l IH]; intros x; simpl.
  - repeat split; [now left | lra | tauto].
  - destruct (IH (Rmin x a)) as (Hin & Hle & Hall).
    pose proof (Rmin_l x a). pose proof (Rmin_r x a).
    repeat split.
    + destruct Hin as [Heq | Hin]; [|now right; right].
      rewrite Heq. unfold Rmin. destruct (Rle_dec x a); [now left | now right; left].
    + lra.
    + intros y [<- | Hy]; [lra | now apply Hall].
Qed.

(** [np.min] returns an element of the array that is below all others. *)
Lemma np_min_least (a : list R) (e : R) :
  In e a -> (forall y, In y a -> e <= y) -> np_min a = Ok e.
Proof.
  destruct a as [|x l]; [intros []|].
  intros Hin Hall. simpl. f_equal.
  destruct (fold_left_Rmin_spec l x) as (Hmem & Hle & Hl).
  assert (He : e <= fold_left Rmin l x).
  { apply Hall. destruct Hmem as [-> | Hm]; [now left | now right]. }
  destruct Hin as [<- | Hin]; [lra|].
  specialize (Hl e Hin). lra.
Qed.

(** X26: for a non-negative [gamma] and [epsilon] and a row with a zero on the
    diagonal, the minimum over the whole row is attained at the site's own
    entry, so the cap is the smaller of the maximum capacity and [epsilon]
    and does not depend on any distance. *)
Lemma adjusted_max_capacity_own_entry
      (self : OptimizedEVChargingNetwork) (i : nat) (site : EVChargingSite) :
  0 <= gamma (network self) ->
  0 <= epsilon self ->
  (i < length (nth i (distance_matrix (network self)) []))%nat ->
  matrix_get (distance_matrix (network self)) i i = 0 ->
  adjusted_max_capacity self i site
  = Ok (Rmin (IZR (max_capacity site)) (epsilon self)).
Proof.
  intros Hg He Hlen Hdiag. unfold adjusted_max_capacity, matrix_get in *.
  set (row := nth i (distance_matrix (network self)) []) in *.
  rewrite (np_min_least _ (epsilon self)); [reflexivity| |].
  - unfold np_exp. rewrite !map_map. apply in_map_iff.
    exists (nth i row 0). split; [|now apply nth_In].
    rewrite Hdiag. replace (gamma (network self) * 0 ^ 2) with 0 by ring.
    rewrite exp_0. ring.
  - intros y Hy. unfold np_exp in Hy. rewrite !map_map in Hy.
    apply in_map_iff in Hy. destruct Hy as (d & <- & _).
    assert (0 <= gamma (network self) * d ^ 2).
    { apply Rmult_le_pos; [assumption|]. apply pow2_ge_0. }
    pose proof (exp_ineq1_le (gamma (network self) * d ^ 2)). nra.
Qed.

Lemma adjusted_max_capacity_own_entry_witness :
  adjusted_max_capacity two_site_engine 0 (simple_site 0 0 10)
  = Ok (Rmin (IZR (max_capacity (simple_site 0 0 10))) (epsilon two_site_engine)).
Proof.
  apply adjusted_max_capacity_own_entry; simpl; try lra; try lia.
  unfold matrix_get; simpl. reflexivity.
Defined.

(** C3, at the failing input: two sites one distance unit apart, [gamma = 1],
    [epsilon = 1], maximum capacity 10.  The code caps site 0 at 1 (its own
    entry [exp 0]); the minimum over the other site gives [exp 1 > 1]. *)
Theorem adjusted_max_capacity_includes_own_entry :
  adjusted_max_capacity two_site_engine 0 (simple_site 0 0 10) = Ok 1 /\
  adjusted_max_capacity_spec two_site_engine 0 (simple_site 0 0 10) = Ok (exp 1) /\
  1 < exp 1.
Proof.
  assert (H1 : 1 < exp 1).
  { pose proof (exp_ineq1 1). lra. }
  pose proof exp_le_3 as H3.
  repeat split; [| |exact H1].
  - unfold adjusted_max_capacity, two_site_engine, np_exp. simpl.
    replace (1 * (0 * (0 * 1))) with 0 by ring.
    replace (1 * (1 * (1 * 1))) with 1 by ring.
    rewrite exp_0. f_equal.
    rewrite !Rmult_1_l. rewrite (Rmin_left 1 (exp 1)) by lra.
    apply Rmin_right. lra.
  - unfold adjusted_max_capacity_spec, two_site_engine, np_exp, other_entries. simpl.
    replace (1 * (1 * (1 * 1))) with 1 by ring.
    f_equal. rewrite Rmult_1_l. apply Rmin_right. lra.
Qed.

(** ** Lists updated by index *)

Lemma list_set_length {A : Type} (i : nat) (x : A) (l : list A) :
  length (list_set i x l) = length l.
Proof.
  revert i; induction l as [|y l IH]; intros [|i]; simpl; auto.
Qed.

Lemma nth_error_list_set_eq {A : Type} (i : nat) (x : A) (l : list A) :
  (i < length l)%nat -> nth_error (list_set i x l) i = Some x.
Proof.
  revert i; induction l as [|y l IH]; intros [|i] H; simpl in *; try lia; auto.
  apply IH. lia.
Qed.

Lemma nth_error_list_set_neq {A : Type} (i k : nat) (x : A) (l : list A) :
  k <> i -> nth_error (list_set i x l) k = nth_error l k.
Proof.
  revert i k; induction l as [|y l IH]; intros [|i] [|k] H; simpl; auto.
  congruence.
Qed.

Lemma nth_list_set_eq {A : Type} (i : nat) (x d : A) (l : list A) :
  (i < length l)%nat -> nth i (list_set i x l) d = x.
Proof.
  intros H. apply nth_error_nth. now apply nth_error_list_set_eq.
Qed.

Lemma nth_list_set_neq {A : Type} (i k : nat) (x d : A) (l : list A) :
  k <> i -> nth k (list_set i x l) d = nth k l d.
Proof.
  revert i k; induction l as [|y l IH]; intros [|i] [|k] H; simpl; auto.
  congruence.
Qed.

Lemma nth_error_map_option {A B : Type} (f : A -> B) (l : list A) (i : nat) :
  nth_error (map f l) i = option_map f (nth_error l i).
Proof.
  revert i; induction l as [|y l IH]; intros [|i]; simpl; auto.
Qed.

(** ** The distance matrix *)

Lemma matrix_set_square (n i j : nat) (v : R) (m : list (list R)) :
  square_matrix n m -> square_matrix n (matrix_set i j v m).
Proof.
  intros [Hlen Hrows]. unfold matrix_set. split.
  - now rewrite list_set_length.
  - intros k Hk. destruct (Nat.eq_dec k i) as [->|Hki].
    + rewrite nth_list_set_eq by lia. rewrite list_set_length. now apply Hrows.
    + rewrite nth_list_set_neq by assumption. now apply Hrows.
Qed.

Lemma matrix_set_diagonal (n i j : nat) (v : R) (m : list (list R)) :
  i <> j -> square_matrix n m -> zero_diagonal n m ->
  zero_diagonal n (matrix_set i j v m).
Proof.
  intros Hij [Hlen Hrows] Hdiag k Hk. unfold matrix_get, matrix_set.
  destruct (Nat.eq_dec k i) as [->|Hki].
  - rewrite nth_list_set_eq by lia.
    rewrite nth_list_set_neq by assumption. now apply Hdiag.
  - rewrite nth_list_set_neq by assumption. now apply Hdiag.
Qed.

Lemma np_zeros2_well_formed (n : nat) :
  square_matrix n (np_zeros2 n n) /\ zero_diagonal n (np_zeros2 n n).
Proof.
  unfold np_zeros2. split; [split|].
  - apply repeat_length.
  - intros i Hi. rewrite nth_repeat_lt by assumption. apply repeat_length.
  - intros i Hi. unfold matrix_get.
    rewrite nth_repeat_lt by assumption. now rewrite nth_repeat_lt.
Qed.

Section GreatCircleFacts.

Variable haversine : R * R -> R * R -> R.

Lemma distance_row_loop_well_formed (ss : list EVChargingSite) (i : nat)
      (site_i : EVChargingSite) (m : list (list R)) (n : nat) :
  square_matrix n m /\ zero_diagonal n m ->
  square_matrix n (distance_row_loop haversine ss i site_i m) /\
  zero_diagonal n (distance_row_loop haversine ss i site_i m).
Proof.
  unfold distance_row_loop.
  assert (Hgt : forall j, In j (seq (S i) (length ss - S i)) -> (i < j)%nat).
  { intros j Hj. apply in_seq in Hj. lia. }
  revert m Hgt. induction (seq (S i) (length ss - S i)) as [|j l IH];
    intros m Hgt [Hsq Hd]; simpl; [now split|].
  assert (i < j)%nat by (apply Hgt; now left).
  apply IH; [intros; apply Hgt; now right|].
  split.
  - now do 2 apply matrix_set_square.
  - apply matrix_set_diagonal; [lia| |].
    + now apply matrix_set_square.
    + apply matrix_set_diagonal; [lia|assumption|assumption].
Qed.

Lemma distance_loop_well_formed (ss : list EVChargingSite) (l : list nat)
      (m : list (list R)) (n : nat) :
  square_matrix n m /\ zero_diagonal n m ->
  let m' :=
    fold_left
      (fun m i =>
         match nth_error ss i with
         | Some site_i => distance_row_loop haversine ss i site_i m
         | None => m
         end) l m in
  square_matrix n m' /\ zero_diagonal n m'.
Proof.
  revert m. induction l as [|i l IH]; intros m Hm; simpl.
  - exact Hm.
  - apply IH. destruct (nth_error ss i); [|exact Hm].
    now apply distance_row_loop_well_formed.
Qed.

(** The matrix built at construction is square with a zero diagonal. *)
Lemma _compute_distance_matrix_well_formed (ss : list EVChargingSite) :
  square_matrix (length ss) (_compute_distance_matrix haversine ss) /\
  zero_diagonal (length ss) (_compute_distance_matrix haversine ss).
Proof.
  unfold _compute_distance_matrix.
  apply distance_loop_well_formed, np_zeros2_well_formed.
Qed.

End GreatCircleFacts.

(** ** Spillover recomputation *)

Lemma spillover_divisor_counts (g : R) (row : list R)
      (ss1 ss2 : list EVChargingSite) (site : EVChargingSite) :
  map num_charging_stations ss1 = map num_charging_stations ss2 ->
  spillover_divisor g row ss1 site = spillover_divisor g row ss2 site.
Proof.
  intros H. unfold spillover_divisor. do 2 f_equal.
  rewrite <- (map_map num_charging_stations
                (fun n => IZR n / IZR (num_charging_stations site)) ss1).
  rewrite <- (map_map num_charging_stations
                (fun n => IZR n / IZR (num_charging_stations site)) ss2).
  now rewrite H.
Qed.

Lemma refreshed_site_num (net : EVChargingNetwork) (i : nat) (site : EVChargingSite) :
  num_charging_stations (refreshed_site net i site) = num_charging_stations site.
Proof.
  unfold refreshed_site. now destruct (num_charging_stations site =? 0)%Z.
Qed.

(** State of the loop after its first [n] iterations. *)
Lemma update_loop_invariant (net : EVChargingNetwork) (n : nat) :
  let st := fold_left (update_site_rate (gamma net) (distance_matrix net))
                      (seq 0 n) (sites net) in
  length st = length (sites net) /\
  forall i, nth_error st i =
            if (i <? n)%nat
            then option_map (refreshed_site net i) (nth_error (sites net) i)
            else nth_error (sites net) i.
Proof.
  induction n as [|n IH]; [simpl; auto|].
  rewrite seq_S, fold_left_app. simpl in *.
  set (st := fold_left (update_site_rate (gamma net) (distance_matrix net))
                       (seq 0 n) (sites net)) in *.
  destruct IH as [Hlen Hnth].
  assert (Hn : nth_error st n = nth_error (sites net) n).
  { rewrite Hnth, Nat.ltb_irrefl. reflexivity. }
  assert (Hcounts : map num_charging_stations st
                    = map num_charging_stations (sites net)).
  { apply nth_error_ext. intros i. rewrite !nth_error_map_option, Hnth.
    destruct (i <? n)%nat; [|reflexivity].
    destruct (nth_error (sites net) i); simpl; [|reflexivity].
    now rewrite refreshed_site_num. }
  unfold update_site_rate. rewrite Hn.
  destruct (nth_error (sites net) n) as [site|] eqn:Hsite.
  - destruct (num_charging_stations site =? 0)%Z eqn:Hz.
    + split; [assumption|]. intros i. rewrite Hnth.
      destruct (Nat.eq_dec i n) as [->|Hin].
      * rewrite Nat.ltb_irrefl, Hsite.
        replace (n <? S n)%nat with true by (symmetry; apply Nat.ltb_lt; lia).
        simpl. unfold refreshed_site. now rewrite Hz.
      * replace (i <? S n)%nat with (i <? n)%nat; [reflexivity|].
        destruct (i <? n)%nat eqn:E; symmetry.
        -- apply Nat.ltb_lt in E. apply Nat.ltb_lt. lia.
        -- apply Nat.ltb_ge in E. apply Nat.ltb_ge. lia.
    + split; [now rewrite list_set_length|]. intros i.
      destruct (Nat.eq_dec i n) as [->|Hin].
      * rewrite nth_error_list_set_eq.
        2:{ rewrite Hlen. apply nth_error_Some. congruence. }
        replace (n <? S n)%nat with true by (symmetry; apply Nat.ltb_lt; lia).
        rewrite Hsite. simpl. unfold refreshed_site. rewrite Hz.
        now rewrite (spillover_divisor_counts _ _ st (sites net)).
      * rewrite nth_error_list_set_neq by assumption. rewrite Hnth.
        replace (i <? S n)%nat with (i <? n)%nat; [reflexivity|].
        destruct (i <? n)%nat eqn:E; symmetry.
        -- apply Nat.ltb_lt in E. apply Nat.ltb_lt. lia.
        -- apply Nat.ltb_ge in E. apply Nat.ltb_ge. lia.
  - split; [assumption|]. intros i. rewrite Hnth.
    destruct (Nat.eq_dec i n) as [->|Hin].
    + rewrite Nat.ltb_irrefl, Hsite. now destruct (n <? S n)%nat.
    + replace (i <? S n)%nat with (i <? n)%nat; [reflexivity|].
      destruct (i <? n)%nat eqn:E; symmetry.
      * apply Nat.ltb_lt in E. apply Nat.ltb_lt. lia.
      * apply Nat.ltb_ge in E. apply Nat.ltb_ge. lia.
Qed.

(** The loop rewrites each site independently of the others' new rates. *)
Lemma update_nth_error (net : EVChargingNetwork) (i : nat) :
  nth_error (sites (update_effective_arrival_rates net)) i
  = option_map (refreshed_site net i) (nth_error (sites net) i).
Proof.
  unfold update_effective_arrival_rates. simpl.
  destruct (update_loop_invariant net (length (sites net))) as [_ H].
  rewrite H. destruct (i <? length (sites net))%nat eqn:E; [reflexivity|].
  apply Nat.ltb_ge in E. apply nth_error_None in E. now rewrite E.
Qed.

Lemma update_length (net : EVChargingNetwork) :
  length (sites (update_effective_arrival_rates net)) = length (sites net).
Proof.
  unfold update_effective_arrival_rates. simpl.
  now destruct (update_loop_invariant net (length (sites net))) as [H _].
Qed.

Lemma update_gamma (net : EVChargingNetwork) :
  gamma (update_effective_arrival_rates net) = gamma net.
Proof. reflexivity. Qed.

Lemma update_distance_matrix (net : EVChargingNetwork) :
  distance_matrix (update_effective_arrival_rates net) = distance_matrix net.
Proof. reflexivity. Qed.

(** Recomputing the rates never touches the allocation. *)
Lemma update_allocation (net : EVChargingNetwork) :
  allocation (update_effective_arrival_rates net) = allocation net.
Proof.
  unfold allocation. apply nth_error_ext. intros i.
  rewrite !nth_error_map_option, update_nth_error.
  destruct (nth_error (sites net) i); simpl; [|reflexivity].
  now rewrite refreshed_site_num.
Qed.

Lemma combine_map_seq {A B C : Type} (h : A * B -> C) (da : A) (db : B)
      (a : list A) (b : list B) :
  length a = length b ->
  map h (combine a b)
  = map (fun j => h (nth j a da, nth j b db)) (seq 0 (length a)).
Proof.
  revert b; induction a as [|x a IH]; intros [|y b] H; simpl in *;
    try discriminate; [reflexivity|].
  f_equal. rewrite <- seq_shift, map_map. apply IH. lia.
Qed.

Lemma stations_nth_error (net : EVChargingNetwork) (i : nat) (site : EVChargingSite) :
  nth_error (sites net) i = Some site -> stations net i = num_charging_stations site.
Proof.
  intros H. unfold stations, allocation. apply nth_error_nth.
  now rewrite nth_error_map_option, H.
Qed.

(** On a square matrix the numpy expression is the sum over all sites. *)
Lemma spillover_divisor_sum (net : EVChargingNetwork) (i : nat) (site : EVChargingSite) :
  length (nth i (distance_matrix net) []) = length (sites net) ->
  nth_error (sites net) i = Some site ->
  spillover_divisor (gamma net) (nth i (distance_matrix net) []) (sites net) site
  = spillover_sum net i.
Proof.
  intros Hlen Hsite. unfold spillover_divisor, spillover_sum, np_sum, py_sum, np_mul, np_exp.
  f_equal. rewrite map_map.
  rewrite (combine_map_seq _ (exp (- gamma net * 0 ^ 2))
             (IZR 0 / IZR (num_charging_stations site))).
  2:{ now rewrite !length_map. }
  rewrite length_map, Hlen. apply map_ext. intros j. cbv beta. cbn [fst snd].
  rewrite (map_nth (fun d => exp (- gamma net * d ^ 2))).
  rewrite <- (map_map num_charging_stations
                (fun n => IZR n / IZR (num_charging_stations site))).
  rewrite (map_nth (fun n => IZR n / IZR (num_charging_stations site))).
  rewrite (stations_nth_error net i site Hsite).
  unfold matrix_get, stations, allocation. do 2 f_equal. ring.
Qed.

Lemma py_sum_ge_member (l : list R) (x : R) :
  Forall (fun y => 0 <= y) l -> In x l -> x <= py_sum l.
Proof.
  induction 1 as [|y l Hy Hl IH]; intros Hin; [destruct Hin|].
  rewrite py_sum_cons. pose proof (py_sum_nonneg l Hl).
  destruct Hin as [<-|Hin]; [lra|]. specialize (IH Hin). lra.
Qed.

Lemma stations_nonneg (net : EVChargingNetwork) (j : nat) :
  Forall (fun s => (0 <= num_charging_stations s)%Z) (sites net) ->
  (0 <= stations net j)%Z.
Proof.
  intros H. unfold stations, allocation.
  destruct (nth_error (sites net) j) as [s|] eqn:E.
  - rewrite (nth_error_nth _ _ _ (eq_trans (nth_error_map_option _ _ _)
                                           (f_equal (option_map _) E))).
    rewrite Forall_forall in H. apply H. eapply nth_error_In, E.
  - rewrite nth_overflow; [lia|]. rewrite length_map. now apply nth_error_None.
Qed.

(** The divisor contains the site's own term, which is 1, and no negative term. *)
Lemma spillover_sum_ge_1 (net : EVChargingNetwork) (i : nat) (site : EVChargingSite) :
  zero_diagonal (length (sites net)) (distance_matrix net) ->
  Forall (fun s => (0 <= num_charging_stations s)%Z) (sites net) ->
  nth_error (sites net) i = Some site ->
  (0 < num_charging_stations site)%Z ->
  1 <= spillover_sum net i.
Proof.
  intros Hdiag Hall Hsite Hpos. unfold spillover_sum.
  assert (Hi : (i < length (sites net))%nat).
  { apply nth_error_Some. congruence. }
  pose proof (stations_nth_error net i site Hsite) as Hsi.
  assert (Hden : 0 < IZR (stations net i)) by (rewrite Hsi; apply IZR_lt; lia).
  apply py_sum_ge_member.
  - apply Forall_forall. intros y Hy. apply in_map_iff in Hy.
    destruct Hy as (j & <- & _).
    apply Rmult_le_pos; [left; apply exp_pos|].
    apply Rmult_le_pos; [apply IZR_le, stations_nonneg, Hall|].
    left. now apply Rinv_0_lt_compat.
  - apply in_map_iff. exists i. split; [|apply in_seq; lia].
    rewrite (Hdiag i Hi).
    replace (- (gamma net * 0 ^ 2)) with 0 by ring. rewrite exp_0.
    field. lra.
Qed.

(** C6: after [update_effective_arrival_rates], a site with a positive station
    count has its arrival rate divided by the sum over all sites [j] of
    [exp(-gamma * distance(i, j)^2) * (stations_j / stations_i)], and a site
    without stations keeps the effective arrival rate it had. *)
Theorem update_effective_arrival_rates_spec
        (net : EVChargingNetwork) (i : nat) (site : EVChargingSite) :
  well_formed net ->
  nth_error (sites net) i = Some site ->
  exists site',
    nth_error (sites (update_effective_arrival_rates net)) i = Some site' /\
    ((0 < num_charging_stations site)%Z ->
     effective_arrival_rate site' = arrival_rate site / spillover_sum net i) /\
    (num_charging_stations site = 0%Z ->
     effective_arrival_rate site' = effective_arrival_rate site).
Proof.
  intros [[_ Hrows] _] Hsite.
  exists (refreshed_site net i site). split; [|split].
  - rewrite update_nth_error, Hsite. reflexivity.
  - intros Hpos. unfold refreshed_site.
    replace (num_charging_stations site =? 0)%Z with false by (symmetry; apply Z.eqb_neq; lia).
    simpl. rewrite spillover_divisor_sum; [reflexivity| |assumption].
    apply Hrows, nth_error_Some. congruence.
  - intros Hz. unfold refreshed_site. rewrite Hz. reflexivity.
Qed.

(** C10: with a non-negative [gamma], non-negative station counts everywhere,
    and a site with a positive count and a non-negative arrival rate, the
    recomputed effective arrival rate of that site is at most its arrival
    rate. *)
Theorem effective_arrival_rate_le_arrival_rate
        (net : EVChargingNetwork) (i : nat) (site : EVChargingSite) :
  well_formed net ->
  0 <= gamma net ->
  Forall (fun s => (0 <= num_charging_stations s)%Z) (sites net) ->
  nth_error (sites net) i = Some site ->
  (0 < num_charging_stations site)%Z ->
  0 <= arrival_rate site ->
  exists site',
    nth_error (sites (update_effective_arrival_rates net)) i = Some site' /\
    effective_arrival_rate site' <= arrival_rate site.
Proof.
  intros Hwf _ Hall Hsite Hpos Harr.
  exists (refreshed_site net i site). split.
  - rewrite update_nth_error, Hsite. reflexivity.
  - destruct Hwf as [[_ Hrows] Hdiag].
    unfold refreshed_site.
    replace (num_charging_stations site =? 0)%Z with false by (symmetry; apply Z.eqb_neq; lia).
    simpl. rewrite spillover_divisor_sum; [| |assumption].
    2:{ apply Hrows, nth_error_Some. congruence. }
    pose proof (spillover_sum_ge_1 net i site Hdiag Hall Hsite Hpos) as HD.
    apply Rmult_le_reg_r with (r := spillover_sum net i); [lra|].
    unfold Rdiv. rewrite Rmult_assoc, Rinv_l by lra. nra.
Qed.

Lemma two_site_network_well_formed : well_formed two_site_network.
Proof.
  split; [split; [reflexivity|]|]; intros [|[|i]] Hi; simpl in *;
    try reflexivity; try lia; unfold matrix_get; reflexivity.
Qed.

Lemma update_effective_arrival_rates_spec_witness :
  exists site',
    nth_error (sites (update_effective_arrival_rates two_site_network)) 0 = Some site' /\
    ((0 < num_charging_stations (simple_site 2 0 3))%Z ->
     effective_arrival_rate site'
     = arrival_rate (simple_site 2 0 3) / spillover_sum two_site_network 0) /\
    (num_charging_stations (simple_site 2 0 3) = 0%Z ->
     effective_arrival_rate site' = effective_arrival_rate (simple_site 2 0 3)).
Proof.
  apply update_effective_arrival_rates_spec.
  - exact two_site_network_well_formed.
  - reflexivity.
Defined.

Lemma effective_arrival_rate_le_arrival_rate_witness :
  exists site',
    nth_error (sites (update_effective_arrival_rates two_site_network)) 0 = Some site' /\
    effective_arrival_rate site' <= arrival_rate (simple_site 2 0 3).
Proof.
  apply effective_arrival_rate_le_arrival_rate.
  - exact two_site_network_well_formed.
  - simpl; lra.
  - repeat constructor; simpl; lia.
  - reflexivity.
  - simpl; lia.
  - simpl; lra.
Defined.

(** ** Relaxation: the counts written back *)

Lemma fold_left_Zadd_acc (l : list Z) (a : Z) :
  fold_left Z.add l a = (a + fold_left Z.add l 0)%Z.
Proof.
  revert a; induction l as [|x l IH]; intros a; simpl; [lia|].
  rewrite IH, (IH x). lia.
Qed.

Lemma py_range_cons (a b : Z) :
  (a < b)%Z -> py_range a b = a :: py_range (a + 1) b.
Proof.
  intros H. unfold py_range.
  replace (Z.to_nat (b - a)) with (S (Z.to_nat (b - (a + 1)))) by lia.
  cbn [seq map]. f_equal; [lia|].
  rewrite <- seq_shift, map_map. apply map_ext. intros k. lia.
Qed.

(** Once a float has entered the sum, the sum is a float. *)
Lemma fold_py_add_float (xs : list R) (acc : R) :
  exists r, fold_left py_add (map PyFloat xs) (PyFloat acc) = PyFloat r.
Proof.
  revert acc. induction xs as [|x xs IH]; intros acc; simpl; [now exists acc|].
  apply IH.
Qed.

(** With at least one slot per site, the value assigned to a site's count is
    a float, whatever the solver's values are. *)
Lemma committed_count_float (z : nat -> Z -> R) (num_stations : Z) (i : nat) :
  (1 <= num_stations)%Z ->
  exists r, committed_count z num_stations i = PyFloat r.
Proof.
  intros H. unfold committed_count, py_sum_numbers.
  rewrite py_range_cons by lia. cbn [map fold_left py_add].
  rewrite <- (map_map (z i) PyFloat). apply fold_py_add_float.
Qed.

(** With no slot at all the sum is the int 0 it starts from. *)
Lemma committed_count_no_slot (z : nat -> Z -> R) (num_stations : Z) (i : nat) :
  (num_stations <= 0)%Z -> committed_count z num_stations i = PyInt 0.
Proof.
  intros H. unfold committed_count. now rewrite py_range_empty by lia.
Qed.


(** ** Networks up to their effective arrival rates *)

Lemma assign_stations_nth_error (i k : nat) (n : Z) (net : EVChargingNetwork) :
  nth_error (sites (assign_stations i n net)) k
  = if (k =? i)%nat
    then option_map (set_num_charging_stations n) (nth_error (sites net) k)
    else nth_error (sites net) k.
Proof.
  unfold assign_stations.
  destruct (nth_error (sites net) i) as [site|] eqn:Hi; cbn [sites set_sites].
  - destruct (Nat.eqb_spec k i) as [->|Hk].
    + rewrite nth_error_list_set_eq, Hi; [reflexivity|].
      apply nth_error_Some. congruence.
    + now apply nth_error_list_set_neq.
  - destruct (Nat.eqb_spec k i) as [->|Hk]; [now rewrite Hi | reflexivity].
Qed.

Lemma assign_stations_gamma (i : nat) (n : Z) (net : EVChargingNetwork) :
  gamma (assign_stations i n net) = gamma net.
Proof. unfold assign_stations. now destruct (nth_error (sites net) i). Qed.

Lemma assign_stations_distance_matrix (i : nat) (n : Z) (net : EVChargingNetwork) :
  distance_matrix (assign_stations i n net) = distance_matrix net.
Proof. unfold assign_stations. now destruct (nth_error (sites net) i). Qed.

Lemma same_static_pointwise (n1 n2 : EVChargingNetwork) :
  same_static n1 n2 <->
  gamma n1 = gamma n2 /\
  distance_matrix n1 = distance_matrix n2 /\
  forall k, option_map erase_rate (nth_error (sites n1) k)
            = option_map erase_rate (nth_error (sites n2) k).
Proof.
  unfold same_static. split; intros (Hg & Hd & Hs); repeat split; auto.
  - intros k. rewrite <- !nth_error_map_option. now rewrite Hs.
  - apply nth_error_ext. intros k. rewrite !nth_error_map_option. apply Hs.
Qed.

Lemma same_static_refl (n : EVChargingNetwork) : same_static n n.
Proof. repeat split. Qed.

Lemma same_static_sym (n1 n2 : EVChargingNetwork) :
  same_static n1 n2 -> same_static n2 n1.
Proof. intros (Hg & Hd & Hs). repeat split; auto. Qed.

Lemma same_static_trans (n1 n2 n3 : EVChargingNetwork) :
  same_static n1 n2 -> same_static n2 n3 -> same_static n1 n3.
Proof.
  intros (Hg & Hd & Hs) (Hg' & Hd' & Hs'). repeat split; congruence.
Qed.

Lemma erase_rate_set_num (n : Z) (s1 s2 : EVChargingSite) :
  erase_rate s1 = erase_rate s2 ->
  erase_rate (set_num_charging_stations n s1)
  = erase_rate (set_num_charging_stations n s2).
Proof.
  destruct s1, s2. unfold erase_rate, set_effective_arrival_rate,
    set_num_charging_stations. simpl. intros H. injection H as -> -> -> -> -> _ -> -> ->.
  reflexivity.
Qed.

Lemma erase_rate_num (s1 s2 : EVChargingSite) :
  erase_rate s1 = erase_rate s2 ->
  num_charging_stations s1 = num_charging_stations s2.
Proof.
  intros H. apply (f_equal num_charging_stations) in H. exact H.
Qed.

Lemma same_static_assign (i : nat) (n : Z) (n1 n2 : EVChargingNetwork) :
  same_static n1 n2 ->
  same_static (assign_stations i n n1) (assign_stations i n n2).
Proof.
  intros H. apply same_static_pointwise in H. destruct H as (Hg & Hd & Hs).
  apply same_static_pointwise.
  rewrite !assign_stations_gamma, !assign_stations_distance_matrix.
  repeat split; auto. intros k. rewrite !assign_stations_nth_error.
  specialize (Hs k). destruct (k =? i)%nat; [|exact Hs].
  destruct (nth_error (sites n1) k), (nth_error (sites n2) k);
    cbn [option_map] in *; try discriminate; [|reflexivity].
  f_equal. apply erase_rate_set_num. congruence.
Qed.

Lemma same_static_commit (i j : nat) (sol : Z * Z) (n1 n2 : EVChargingNetwork) :
  same_static n1 n2 ->
  same_static (commit_pair i j sol n1) (commit_pair i j sol n2).
Proof.
  intros H. unfold commit_pair. now do 2 apply same_static_assign.
Qed.

Lemma erase_rate_refreshed (net : EVChargingNetwork) (k : nat) (s : EVChargingSite) :
  erase_rate (refreshed_site net k s) = erase_rate s.
Proof.
  unfold refreshed_site. now destruct (num_charging_stations s =? 0)%Z.
Qed.

Lemma same_static_update (net : EVChargingNetwork) :
  same_static (update_effective_arrival_rates net) net.
Proof.
  apply same_static_pointwise. repeat split. intros k.
  rewrite update_nth_error. destruct (nth_error (sites net) k); simpl; [|reflexivity].
  now rewrite erase_rate_refreshed.
Qed.

Lemma same_static_allocation (n1 n2 : EVChargingNetwork) :
  same_static n1 n2 -> allocation n1 = allocation n2.
Proof.
  intros (_ & _ & Hs). unfold allocation.
  apply (f_equal (map num_charging_stations)) in Hs.
  rewrite !map_map in Hs. exact Hs.
Qed.

(** Setting the pair twice is setting it once. *)
Lemma commit_pair_absorb (i j : nat) (sol sol' : Z * Z) (net : EVChargingNetwork) :
  same_static (commit_pair i j sol' (commit_pair i j sol net))
              (commit_pair i j sol' net).
Proof.
  apply same_static_pointwise. unfold commit_pair.
  rewrite !assign_stations_gamma, !assign_stations_distance_matrix.
  repeat split. intros k. rewrite !assign_stations_nth_error.
  destruct (k =? j)%nat, (k =? i)%nat, (nth_error (sites net) k); reflexivity.
Qed.

(** Writing back the counts the two sites already have changes nothing. *)
Lemma commit_pair_start (i j : nat) (net : EVChargingNetwork)
      (site neighbor : EVChargingSite) :
  nth_error (sites net) i = Some site ->
  nth_error (sites net) j = Some neighbor ->
  same_static
    (commit_pair i j (num_charging_stations site, num_charging_stations neighbor) net)
    net.
Proof.
  intros Hi Hj. apply same_static_pointwise. unfold commit_pair.
  rewrite !assign_stations_gamma, !assign_stations_distance_matrix.
  repeat split. intros k. rewrite !assign_stations_nth_error. cbn [fst snd].
  destruct (Nat.eqb_spec k j) as [Hkj|Hkj], (Nat.eqb_spec k i) as [Hki|Hki];
    subst; rewrite ?Hi, ?Hj; try reflexivity.
  assert (site = neighbor) by congruence. now subst.
Qed.

Lemma spillover_divisor_site (g : R) (row : list R) (ss : list EVChargingSite)
      (s1 s2 : EVChargingSite) :
  num_charging_stations s1 = num_charging_stations s2 ->
  spillover_divisor g row ss s1 = spillover_divisor g row ss s2.
Proof.
  intros H. unfold spillover_divisor. now rewrite H.
Qed.

Lemma set_rate_erased (r : R) (s1 s2 : EVChargingSite) :
  erase_rate s1 = erase_rate s2 ->
  set_effective_arrival_rate r s1 = set_effective_arrival_rate r s2.
Proof.
  intros H.
  change (set_effective_arrival_rate r (erase_rate s1)
          = set_effective_arrival_rate r (erase_rate s2)).
  now rewrite H.
Qed.

(** The profit of a site without stations does not read its effective rate. *)
Lemma profit_no_stations (s1 s2 : EVChargingSite) :
  erase_rate s1 = erase_rate s2 ->
  num_charging_stations s1 = 0%Z ->
  profit s1 = profit s2.
Proof.
  intros H Hz. pose proof (erase_rate_num _ _ H) as Hn.
  unfold profit.
  rewrite !expected_utilization_unfold, <- Hn, Hz.
  rewrite !utilization_numerator_zero, !normalization_constant_zero.
  unfold Rdiv. rewrite !Rmult_0_l, !Rmult_0_r.
  rewrite (f_equal fixed_cost H : fixed_cost s1 = fixed_cost s2).
  reflexivity.
Qed.

Lemma profit_refreshed (n1 n2 : EVChargingNetwork) (k : nat) (s1 s2 : EVChargingSite) :
  same_static n1 n2 ->
  erase_rate s1 = erase_rate s2 ->
  profit (refreshed_site n1 k s1) = profit (refreshed_site n2 k s2).
Proof.
  intros Hst H. pose proof (erase_rate_num _ _ H) as Hn.
  pose proof (same_static_allocation _ _ Hst) as Halloc.
  destruct Hst as (Hg & Hd & _).
  unfold refreshed_site. rewrite <- Hn.
  destruct (num_charging_stations s1 =? 0)%Z eqn:Hz.
  - apply profit_no_stations; [assumption|]. now apply Z.eqb_eq.
  - f_equal. rewrite Hg, Hd.
    rewrite (spillover_divisor_counts _ _ (sites n1) (sites n2)) by exact Halloc.
    rewrite (spillover_divisor_site _ _ _ s1 s2 Hn).
    rewrite (f_equal arrival_rate H : arrival_rate s1 = arrival_rate s2).
    now apply set_rate_erased.
Qed.

(** After a recomputation the total profit is a function of the static data
    and the allocation: stale rates in the input do not show. *)
Lemma total_profit_update_static (n1 n2 : EVChargingNetwork) :
  same_static n1 n2 ->
  total_profit (update_effective_arrival_rates n1)
  = total_profit (update_effective_arrival_rates n2).
Proof.
  intros Hst. unfold total_profit. f_equal.
  apply nth_error_ext. intros k.
  rewrite !nth_error_map_option, !update_nth_error.
  pose proof (proj1 (same_static_pointwise _ _) Hst) as (_ & _ & Hs).
  specialize (Hs k).
  destruct (nth_error (sites n1) k) as [s1|], (nth_error (sites n2) k) as [s2|];
    cbn [option_map] in *; try discriminate; [|reflexivity].
  f_equal. apply profit_refreshed; [assumption|congruence].
Qed.

Lemma network_ext (n1 n2 : EVChargingNetwork) :
  sites n1 = sites n2 -> gamma n1 = gamma n2 ->
  distance_matrix n1 = distance_matrix n2 -> n1 = n2.
Proof.
  destruct n1, n2. simpl. intros -> -> ->. reflexivity.
Qed.

(** Recomputing twice is recomputing once: every caller that has just run
    [update_effective_arrival_rates] holds current rates. *)
Lemma update_idempotent (net : EVChargingNetwork) :
  update_effective_arrival_rates (update_effective_arrival_rates net)
  = update_effective_arrival_rates net.
Proof.
  apply network_ext; [|reflexivity|reflexivity].
  apply nth_error_ext. intros k. rewrite update_nth_error.
  rewrite update_nth_error.
  destruct (nth_error (sites net) k) as [s|]; cbn [option_map]; [|reflexivity].
  f_equal. unfold refreshed_site at 1.
  rewrite refreshed_site_num.
  destruct (num_charging_stations s =? 0)%Z eqn:Hz; [reflexivity|].
  unfold refreshed_site. rewrite Hz.
  cbn [arrival_rate set_effective_arrival_rate fixed_cost variable_cost unit_revenue
       mean_charging_time num_charging_stations max_capacity min_capacity geolocation].
  rewrite update_gamma, update_distance_matrix.
  rewrite (spillover_divisor_counts _ _ (sites (update_effective_arrival_rates net))
             (sites net)) by apply update_allocation.
  reflexivity.
Qed.

(** ** The pairwise reallocation *)

Lemma for_in_invariant {S A : Type} (P : S -> Prop) (l : list A)
      (body : A -> S -> PyResult S) :
  (forall x s, In x l -> P s -> exists s', body x s = Ok s' /\ P s') ->
  forall s, P s -> exists s', for_in l body s = Ok s' /\ P s'.
Proof.
  induction l as [|x l IH]; intros Hbody s Hs; simpl.
  - now exists s.
  - destruct (Hbody x s (or_introl eq_refl) Hs) as (s1 & -> & Hs1). simpl.
    apply IH; [|assumption]. intros y t Hy. apply Hbody. now right.
Qed.

Lemma invariant_commit (net0 net : EVChargingNetwork) (i j : nat) (sol' : Z * Z) :
  (exists sol, same_static net (commit_pair i j sol net0)) ->
  same_static (commit_pair i j sol' net) (commit_pair i j sol' net0).
Proof.
  intros [sol H].
  eapply same_static_trans; [apply same_static_commit, H|].
  apply commit_pair_absorb.
Qed.

Lemma try_candidate_invariant (v : NumpyVersion) (net0 : EVChargingNetwork)
      (i j : nat) (start : Z * Z) (z z_ : Z) (st : PairSearch) :
  (forall s, exists b, _is_feasible v s = Ok b) ->
  pair_search_invariant net0 i j start st ->
  exists st', try_candidate v i j z z_ st = Ok st' /\
              pair_search_invariant net0 i j start st'.
Proof.
  intros Hfeas (Hcur & Hbest & Hge & Hstart). unfold try_candidate.
  pose proof (invariant_commit net0 _ i j (z, z_) Hcur) as Hc.
  change (assign_stations j z_ (assign_stations i z (network (engine st))))
    with (commit_pair i j (z, z_) (network (engine st))).
  set (net1 := commit_pair i j (z, z_) (network (engine st))) in *.
  destruct (Hfeas (set_network net1 (engine st))) as [b ->]. cbn [bind].
  destruct b.
  - cbn [network set_network].
    assert (Hc2 : same_static (update_effective_arrival_rates net1)
                              (commit_pair i j (z, z_) net0)).
    { eapply same_static_trans; [apply same_static_update|exact Hc]. }
    destruct (Rgt_dec (total_profit (update_effective_arrival_rates net1))
                      (best_obj_val st)) as [Hgt|Hng].
    + eexists. split; [reflexivity|].
      unfold pair_search_invariant. cbn [engine best_solution best_obj_val network set_network].
      split; [now exists (z, z_)|]. split; [now apply total_profit_update_static|].
      split; [lra|]. intros Heq. lra.
    + eexists. split; [reflexivity|].
      unfold pair_search_invariant. cbn [engine best_solution best_obj_val network set_network].
      split; [now exists (z, z_)|]. auto.
  - eexists. split; [reflexivity|].
    unfold pair_search_invariant. cbn [engine best_solution best_obj_val network set_network].
    split; [now exists (z, z_)|]. auto.
Qed.

(** What a call of [_optimize_pair] returns, together with the pair of
    counts [sol] it has committed. *)
Lemma _optimize_pair_result
      (v : NumpyVersion) (self : OptimizedEVChargingNetwork) (i j : nat) :
  (forall s, exists b, _is_feasible v s = Ok b) ->
  update_effective_arrival_rates (network self) = network self ->
  (i < length (sites (network self)))%nat ->
  (j < length (sites (network self)))%nat ->
  exists self' best sol,
    _optimize_pair v self i j = Ok (self', best) /\
    update_effective_arrival_rates (network self') = network self' /\
    same_static (network self') (commit_pair i j sol (network self)) /\
    best = total_profit (network self') /\
    total_profit (network self) <= best /\
    (best = total_profit (network self) ->
     allocation (network self') = allocation (network self)).
Proof.
  intros Hfeas Hfresh Hi Hj. unfold _optimize_pair.
  destruct (nth_error (sites (network self)) i) as [site|] eqn:Esite.
  2:{ apply nth_error_None in Esite. lia. }
  destruct (nth_error (sites (network self)) j) as [neighbor|] eqn:Eneighbor.
  2:{ apply nth_error_None in Eneighbor. lia. }
  set (net0 := network self) in *.
  set (start := (num_charging_stations site, num_charging_stations neighbor)).
  pose proof (commit_pair_start i j net0 site neighbor Esite Eneighbor) as Hstart.
  fold start in Hstart.
  assert (Hinit : pair_search_invariant net0 i j start
                    (mkPairSearch self start (total_profit net0))).
  { unfold pair_search_invariant. cbn [engine best_solution best_obj_val].
    split; [exists start; now apply same_static_sym|].
    split; [|split; [lra|reflexivity]].
    rewrite (total_profit_update_static _ _ Hstart). now rewrite Hfresh. }
  match goal with
  | |- context [for_in ?l ?body ?s0] =>
      assert (Hloop : exists st, for_in l body s0 = Ok st /\
                                 pair_search_invariant net0 i j start st)
  end.
  { apply for_in_invariant; [|exact Hinit].
    intros z s _ Hs. apply for_in_invariant; [|exact Hs].
    intros z_ s' _ Hs'. now apply try_candidate_invariant. }
  destruct Hloop as (st & -> & (Hcur & Hbest & Hge & Hkeep)).
  cbn [bind]. exists (set_network
                        (update_effective_arrival_rates
                           (commit_pair i j (best_solution st) (network (engine st))))
                        (engine st)), (best_obj_val st), (best_solution st).
  split; [reflexivity|].
  cbn [network set_network].
  pose proof (invariant_commit net0 _ i j (best_solution st) Hcur) as Hc.
  split; [apply update_idempotent|].
  split; [|split; [|split; [exact Hge|]]].
  - eapply same_static_trans; [apply same_static_update|exact Hc].
  - rewrite Hbest. symmetry. now apply total_profit_update_static.
  - intros Heq. rewrite update_allocation.
    rewrite (same_static_allocation _ _ Hc), (Hkeep Heq).
    now apply same_static_allocation.
Qed.

(** A call of [_optimize_pair] whose feasibility checks answer, started
    with current effective rates, returns; the value it returns is the total
    profit of the allocation it commits and is at least the total profit
    before the call; when it does not exceed that profit, the allocation is
    the one before the call. *)
Theorem _optimize_pair_profit_non_decreasing
        (v : NumpyVersion) (self : OptimizedEVChargingNetwork) (i j : nat) :
  (forall s, exists b, _is_feasible v s = Ok b) ->
  update_effective_arrival_rates (network self) = network self ->
  (i < length (sites (network self)))%nat ->
  (j < length (sites (network self)))%nat ->
  exists self' best,
    _optimize_pair v self i j = Ok (self', best) /\
    best = total_profit (network self') /\
    total_profit (network self) <= best /\
    (best = total_profit (network self) ->
     allocation (network self') = allocation (network self)).
Proof.
  intros Hfeas Hfresh Hi Hj.
  destruct (_optimize_pair_result v self i j Hfeas Hfresh Hi Hj)
    as (self' & best & sol & Hrun & _ & _ & Hprofit & Hge & Hkeep).
  now exists self', best.
Qed.

Lemma _optimize_pair_profit_non_decreasing_witness :
  exists self' best,
    _optimize_pair Numpy2 two_site_engine 0 1 = Ok (self', best) /\
    best = total_profit (network self') /\
    total_profit (network two_site_engine) <= best /\
    (best = total_profit (network two_site_engine) ->
     allocation (network self') = allocation (network two_site_engine)).
Proof.
  apply _optimize_pair_profit_non_decreasing.
  - intros s. eexists. apply _is_feasible_numpy2.
  - reflexivity.
  - simpl. lia.
  - simpl. lia.
Defined.

(** With a numpy before 2.0 the first feasibility check of a call raises, and
    so does the call, as soon as one candidate is enumerated. *)
Lemma _optimize_pair_numpy1_raises :
  _optimize_pair Numpy1 two_site_engine 0 1 = Raise TypeError.
Proof. reflexivity. Qed.

(** ** Frame of the pair commit *)




(** ** Site: profit without stations *)

(** X4: a site without stations earns exactly its [fixed_cost]: the revenue
    is 0 and the cost is [variable_cost * 0 - fixed_cost]. *)
Theorem profit_without_stations (s : EVChargingSite) :
  num_charging_stations s = 0%Z -> profit s = fixed_cost s.
Proof.
  intros H. unfold profit.
  assert (HU : expected_utilization s = 0).
  { rewrite expected_utilization_unfold, H.
    rewrite utilization_numerator_zero, normalization_constant_zero. lra. }
  rewrite HU, H. lra.
Qed.

Lemma profit_without_stations_witness :
  profit (simple_site 0 0 3) = fixed_cost (simple_site 0 0 3).
Proof.
  apply profit_without_stations. reflexivity.
Defined.

(** ** The distance matrix, entry by entry *)

Lemma matrix_get_set (n i j a b : nat) (v : R) (m : list (list R)) :
  square_matrix n m -> (i < n)%nat -> (j < n)%nat ->
  matrix_get (matrix_set i j v m) a b
  = if ((a =? i) && (b =? j))%nat%bool then v else matrix_get m a b.
Proof.
  intros [Hlen Hrows] Hi Hj. unfold matrix_get, matrix_set.
  destruct (Nat.eqb_spec a i) as [->|Ha]; cbn [andb].
  - rewrite nth_list_set_eq by lia.
    destruct (Nat.eqb_spec b j) as [->|Hb].
    + apply nth_list_set_eq. rewrite Hrows; lia.
    + now apply nth_list_set_neq.
  - now rewrite nth_list_set_neq.
Qed.

Section DistanceEntries.

Variable haversine : R * R -> R * R -> R.
Variable ss : list EVChargingSite.

Local Abbreviation n := (length ss).

(** The writes of one row, for any list of column indices above [i]. *)
Local Abbreviation row_writes i site_i :=
  (fun (m : list (list R)) (j : nat) =>
     let d := distance haversine (geolocation site_i) (geolocation (nth j ss site_i)) in
     matrix_set j i d (matrix_set i j d m)).

Lemma row_writes_square (i : nat) (site_i : EVChargingSite) (js : list nat)
      (m : list (list R)) :
  square_matrix n m -> square_matrix n (fold_left (row_writes i site_i) js m).
Proof.
  revert m. induction js as [|j js IH]; intros m Hm; cbn [fold_left]; [exact Hm|].
  apply IH. now do 2 apply matrix_set_square.
Qed.

Lemma row_writes_elsewhere (i : nat) (site_i : EVChargingSite) (js : list nat)
      (m : list (list R)) (a b : nat) :
  (i < n)%nat ->
  (forall j, In j js -> (i < j < n)%nat) ->
  square_matrix n m ->
  ~ (a = i /\ In b js) -> ~ (b = i /\ In a js) ->
  matrix_get (fold_left (row_writes i site_i) js m) a b = matrix_get m a b.
Proof.
  intros Hi. revert m. induction js as [|j js IH]; intros m Hjs Hm Hab Hba;
    [reflexivity|]. cbn [fold_left].
  assert (Hj : (i < j < n)%nat) by (apply Hjs; now left).
  rewrite IH.
  - cbv zeta.
    rewrite (matrix_get_set n) by (try apply matrix_set_square; auto; lia).
    rewrite (matrix_get_set n) by (auto; lia).
    destruct (Nat.eqb_spec a j), (Nat.eqb_spec b i),
             (Nat.eqb_spec a i), (Nat.eqb_spec b j);
      cbn [andb]; try reflexivity; exfalso;
      first [lia
            | apply Hab; split; [assumption|left; congruence]
            | apply Hba; split; [assumption|left; congruence]].
  - intros k Hk. apply Hjs. now right.
  - now do 2 apply matrix_set_square.
  - intros [Ha Hb]. apply Hab. split; [assumption|now right].
  - intros [Hb Ha]. apply Hba. split; [assumption|now right].
Qed.

Lemma row_writes_entries (i : nat) (site_i : EVChargingSite) (js : list nat)
      (m : list (list R)) (b : nat) :
  (i < n)%nat ->
  (forall j, In j js -> (i < j < n)%nat) ->
  square_matrix n m ->
  In b js ->
  let d := distance haversine (geolocation site_i) (geolocation (nth b ss site_i)) in
  matrix_get (fold_left (row_writes i site_i) js m) i b = d /\
  matrix_get (fold_left (row_writes i site_i) js m) b i = d.
Proof.
  intros Hi. revert m. induction js as [|j js IH]; intros m Hjs Hm Hb d;
    [destruct Hb|]. cbn [fold_left].
  assert (Hj : (i < j < n)%nat) by (apply Hjs; now left).
  assert (Hjs' : forall k, In k js -> (i < k < n)%nat).
  { intros k Hk. apply Hjs. now right. }
  assert (Hm1 : square_matrix n (row_writes i site_i m j)).
  { cbv beta zeta. now do 2 apply matrix_set_square. }
  destruct (in_dec Nat.eq_dec b js) as [Hin|Hnin].
  - now apply IH.
  - destruct Hb as [->|Hb]; [|contradiction].
    split.
    + rewrite row_writes_elsewhere; auto.
      * cbv zeta. rewrite (matrix_get_set n) by (try apply matrix_set_square; auto; lia).
        rewrite (matrix_get_set n) by (auto; lia).
        destruct (Nat.eqb_spec i b); [lia|]. cbn [andb].
        now rewrite !Nat.eqb_refl.
      * tauto.
      * intros [Hbi _]. lia.
    + rewrite row_writes_elsewhere; auto.
      * cbv zeta. rewrite (matrix_get_set n) by (try apply matrix_set_square; auto; lia).
        now rewrite !Nat.eqb_refl.
      * intros [Hbi _]. lia.
      * tauto.
Qed.

(** The iterations of the outer loop, for any list of row indices. *)
Local Abbreviation outer_writes :=
  (fun (m : list (list R)) (i : nat) =>
     match nth_error ss i with
     | Some site_i => distance_row_loop haversine ss i site_i m
     | None => m
     end).

Lemma outer_writes_elsewhere (rows : list nat) (m : list (list R)) (a b : nat) :
  (a < b)%nat -> ~ In a rows ->
  square_matrix n m /\ zero_diagonal n m ->
  matrix_get (fold_left outer_writes rows m) a b = matrix_get m a b /\
  matrix_get (fold_left outer_writes rows m) b a = matrix_get m b a.
Proof.
  intros Hab. revert m. induction rows as [|i rows IH]; intros m Ha Hm;
    [now split|]. cbn [fold_left].
  assert (Hai : a <> i) by (intros ->; apply Ha; now left).
  assert (Hrest : ~ In a rows) by (intros H; apply Ha; now right).
  destruct (nth_error ss i) as [site_i|] eqn:Hsite; [|now apply IH].
  assert (Hi : (i < n)%nat) by (apply nth_error_Some; congruence).
  assert (Hseq : forall j, In j (seq (S i) (n - S i)) -> (i < j < n)%nat).
  { intros j Hj. apply in_seq in Hj. lia. }
  destruct (IH (distance_row_loop haversine ss i site_i m) Hrest) as [H1 H2].
  { now apply distance_row_loop_well_formed. }
  rewrite H1, H2. unfold distance_row_loop. destruct Hm as [Hsq _]. split.
  - apply row_writes_elsewhere; auto.
    + intros [E _]. contradiction.
    + intros [E Hin]. apply Hseq in Hin. lia.
  - apply row_writes_elsewhere; auto.
    + intros [E Hin]. apply Hseq in Hin. lia.
    + intros [E _]. contradiction.
Qed.

(** X6: the entries of the matrix built by [_compute_distance_matrix]: for
    two sites at indices [a < b], both [m[a, b]] and [m[b, a]] hold the
    distance computed from site [a] to site [b], so the matrix is symmetric
    whether or not the distance function is. *)
Theorem _compute_distance_matrix_entries
        (a b : nat) (site_a site_b : EVChargingSite) :
  nth_error ss a = Some site_a ->
  nth_error ss b = Some site_b ->
  (a < b)%nat ->
  let d := distance haversine (geolocation site_a) (geolocation site_b) in
  matrix_get (_compute_distance_matrix haversine ss) a b = d /\
  matrix_get (_compute_distance_matrix haversine ss) b a = d.
Proof.
  intros Ha Hb Hab d. unfold _compute_distance_matrix.
  assert (Hbn : (b < n)%nat) by (apply nth_error_Some; congruence).
  assert (Hseq : seq 0 n = seq 0 a ++ a :: seq (S a) (n - S a)).
  { replace n with (a + S (n - S a))%nat at 1 by lia.
    rewrite seq_app. reflexivity. }
  rewrite Hseq, fold_left_app. cbn [fold_left]. rewrite Ha.
  set (m1 := fold_left outer_writes (seq 0 a) (np_zeros2 n n)).
  assert (Hm1 : square_matrix n m1 /\ zero_diagonal n m1).
  { apply distance_loop_well_formed, np_zeros2_well_formed. }
  set (m2 := distance_row_loop haversine ss a site_a m1).
  assert (Hm2 : square_matrix n m2 /\ zero_diagonal n m2).
  { now apply distance_row_loop_well_formed. }
  destruct (outer_writes_elsewhere (seq (S a) (n - S a)) m2 a b Hab) as [H1 H2].
  { intros Hin. apply in_seq in Hin. lia. }
  { exact Hm2. }
  rewrite H1, H2. unfold m2, distance_row_loop.
  assert (Hd : distance haversine (geolocation site_a)
                        (geolocation (nth b ss site_a)) = d).
  { unfold d. now rewrite (nth_error_nth _ _ _ Hb). }
  rewrite <- Hd. apply row_writes_entries.
  - lia.
  - intros j Hj. apply in_seq in Hj. lia.
  - apply Hm1.
  - apply in_seq. lia.
Qed.

End DistanceEntries.

Lemma _compute_distance_matrix_entries_witness :
  let d := distance longitude_gap (geolocation (site_at 0 2)) (geolocation (site_at 3 0)) in
  matrix_get (_compute_distance_matrix longitude_gap three_sites) 0 2 = d /\
  matrix_get (_compute_distance_matrix longitude_gap three_sites) 2 0 = d.
Proof.
  apply _compute_distance_matrix_entries.
  - reflexivity.
  - reflexivity.
  - lia.
Defined.

(** X7: a network built by the constructor has a square distance matrix with
    a zero diagonal over its sites, keeps the station counts it was given,
    and holds current effective rates (recomputing them changes nothing). *)
Theorem new_network_well_formed
        (haversine : R * R -> R * R -> R) (ss : list EVChargingSite) (g : R) :
  well_formed (new_network haversine ss g) /\
  allocation (new_network haversine ss g) = map num_charging_stations ss /\
  update_effective_arrival_rates (new_network haversine ss g)
  = new_network haversine ss g.
Proof.
  unfold new_network. split; [|split].
  - unfold well_formed. rewrite update_length, update_distance_matrix.
    cbn [sites distance_matrix].
    apply _compute_distance_matrix_well_formed.
  - rewrite update_allocation. reflexivity.
  - apply update_idempotent.
Qed.

(** X8: recomputing the effective arrival rates twice gives the same network
    as recomputing them once. *)
Theorem update_effective_arrival_rates_idempotent (net : EVChargingNetwork) :
  update_effective_arrival_rates (update_effective_arrival_rates net)
  = update_effective_arrival_rates net.
Proof. apply update_idempotent. Qed.

(** X9: recomputing the effective arrival rates changes no attribute of a
    site other than its effective arrival rate, and leaves the total number
    of stations as it was. *)
Theorem update_effective_arrival_rates_frame
        (net : EVChargingNetwork) (i : nat) (site : EVChargingSite) :
  nth_error (sites net) i = Some site ->
  (exists r, nth_error (sites (update_effective_arrival_rates net)) i
             = Some (set_effective_arrival_rate r site)) /\
  total_charging_stations (update_effective_arrival_rates net)
  = total_charging_stations net.
Proof.
  intros Hsite. split.
  - rewrite update_nth_error, Hsite. cbn [option_map]. unfold refreshed_site.
    destruct (num_charging_stations site =? 0)%Z.
    + exists (effective_arrival_rate site). now destruct site.
    + eexists. reflexivity.
  - unfold total_charging_stations.
    change (map num_charging_stations (sites (update_effective_arrival_rates net)))
      with (allocation (update_effective_arrival_rates net)).
    now rewrite update_allocation.
Qed.

Lemma update_effective_arrival_rates_frame_witness :
  (exists r, nth_error (sites (update_effective_arrival_rates two_site_network)) 0
             = Some (set_effective_arrival_rate r (simple_site 2 0 3))) /\
  total_charging_stations (update_effective_arrival_rates two_site_network)
  = total_charging_stations two_site_network.
Proof.
  apply update_effective_arrival_rates_frame. reflexivity.
Defined.

(** X10: after a recomputation the total profit is determined by the static
    data and the allocation: two networks that differ only in the effective
    arrival rates they hold have the same total profit once the rates are
    recomputed. *)
Theorem total_profit_forgets_stale_rates (n1 n2 : EVChargingNetwork) :
  same_static n1 n2 ->
  total_profit (update_effective_arrival_rates n1)
  = total_profit (update_effective_arrival_rates n2).
Proof. apply total_profit_update_static. Qed.

Lemma total_profit_forgets_stale_rates_witness :
  total_profit (update_effective_arrival_rates stale_two_site_network)
  = total_profit (update_effective_arrival_rates two_site_network).
Proof.
  apply total_profit_forgets_stale_rates. repeat split.
Defined.

(** ** The pairwise reallocation: what it commits *)



(** X11: the result of [_is_feasible] is decided by the total number of
    stations and the budget alone: capacity bounds, coverage requirements and
    the individual counts play no part in it. *)
Theorem _is_feasible_reads_total_and_budget
        (v : NumpyVersion) (self1 self2 : OptimizedEVChargingNetwork) :
  total_charging_stations (network self1) = total_charging_stations (network self2) ->
  budget self1 = budget self2 ->
  _is_feasible v self1 = _is_feasible v self2.
Proof.
  intros Ht Hb. destruct v.
  - now rewrite !_is_feasible_numpy1.
  - rewrite !_is_feasible_numpy2. now rewrite Ht, Hb.
Qed.

Lemma _is_feasible_reads_total_and_budget_witness :
  _is_feasible Numpy2 feasible_engine = _is_feasible Numpy2 infeasible_engine.
Proof.
  apply _is_feasible_reads_total_and_budget; reflexivity.
Defined.

(** ** A network on which stations move *)


(** ** Allocations under the pair commit *)

Lemma map_list_set {A B : Type} (f : A -> B) (i : nat) (x : A) (l : list A) :
  map f (list_set i x l) = list_set i (f x) (map f l).
Proof.
  revert i; induction l as [|y l IH]; intros [|i]; simpl; auto.
  now rewrite IH.
Qed.

Lemma list_set_overflow {A : Type} (i : nat) (x : A) (l : list A) :
  (length l <= i)%nat -> list_set i x l = l.
Proof.
  revert i; induction l as [|y l IH]; intros [|i] H; simpl in *; auto; try lia.
  rewrite IH; [reflexivity|lia].
Qed.

Lemma allocation_assign (i : nat) (n : Z) (net : EVChargingNetwork) :
  allocation (assign_stations i n net) = list_set i n (allocation net).
Proof.
  unfold allocation, assign_stations.
  destruct (nth_error (sites net) i) as [site|] eqn:E; cbn [sites set_sites].
  - now rewrite map_list_set.
  - rewrite list_set_overflow; [reflexivity|].
    rewrite length_map. now apply nth_error_None.
Qed.

Lemma py_sum_int_cons (x : Z) (l : list Z) :
  py_sum_int (x :: l) = (x + py_sum_int l)%Z.
Proof.
  unfold py_sum_int. simpl. now rewrite fold_left_Zadd_acc.
Qed.









(** ** What the pair search does on a concrete network *)

(** With numpy before 2.0 every candidate stops at its feasibility check. *)
Lemma try_candidate_numpy1 (i j : nat) (z z_ : Z) (st : PairSearch) :
  try_candidate Numpy1 i j z z_ st = Raise TypeError.
Proof. reflexivity. Qed.

(** C4, at the failing input: with a numpy before 2.0, on two sites holding 0
    and 1 stations, the call on the second and the first site raises
    [TypeError] at the feasibility check of its first candidate (0, 0): no
    profit is returned and nothing is committed, and the check that raises
    runs on the allocation [0; 0] the candidate has written over [0; 1]. *)
Theorem _optimize_pair_raises_before_commit :
  _optimize_pair Numpy1 moving_engine 1 0 = Raise TypeError /\
  allocation (network moving_engine) = [0; 1]%Z /\
  allocation (commit_pair 1 0 (0, 0)%Z (network moving_engine)) = [0; 0]%Z /\
  _is_feasible Numpy1
    (set_network (commit_pair 1 0 (0, 0)%Z (network moving_engine)) moving_engine)
  = Raise TypeError.
Proof. repeat split. Qed.


(** *** Networks that only pay for their stations *)

Lemma total_profit_cost_only (net : EVChargingNetwork) :
  cost_only net ->
  total_profit net = - IZR (py_sum_int (allocation net)).
Proof.
  unfold cost_only, total_profit, allocation.
  induction (sites net) as [|s l IH]; intros H.
  - simpl. rewrite py_sum_nil. unfold py_sum_int. simpl. lra.
  - inversion H as [|? ? (Hr & Hv & Hf) Hl]; subst. cbn [map].
    rewrite py_sum_cons, py_sum_int_cons, plus_IZR, IH by exact Hl.
    unfold profit. rewrite Hr, Hv, Hf. ring.
Qed.

Lemma cost_only_pointwise (net : EVChargingNetwork) :
  cost_only net <->
  forall k s, nth_error (sites net) k = Some s ->
              unit_revenue s = 0 /\ variable_cost s = 1 /\ fixed_cost s = 0.
Proof.
  unfold cost_only. rewrite Forall_forall. split.
  - intros H k s E. apply H. eapply nth_error_In, E.
  - intros H s Hin. destruct (In_nth_error _ _ Hin) as [k E]. eapply H, E.
Qed.

Lemma cost_only_assign (i : nat) (n : Z) (net : EVChargingNetwork) :
  cost_only net -> cost_only (assign_stations i n net).
Proof.
  rewrite !cost_only_pointwise. intros H k s.
  rewrite assign_stations_nth_error.
  destruct (k =? i)%nat; [|apply H].
  destruct (nth_error (sites net) k) as [s0|] eqn:E; [|discriminate].
  cbn [option_map]. intros [= <-]. apply (H k s0 E).
Qed.

Lemma cost_only_update (net : EVChargingNetwork) :
  cost_only net -> cost_only (update_effective_arrival_rates net).
Proof.
  rewrite !cost_only_pointwise. intros H k s.
  rewrite update_nth_error.
  destruct (nth_error (sites net) k) as [s0|] eqn:E; [|discriminate].
  cbn [option_map]. intros [= <-]. unfold refreshed_site.
  destruct (num_charging_stations s0 =? 0)%Z; apply (H k s0 E).
Qed.

(** One candidate of the pair search on such a network, when the candidate
    passes the numpy 2 feasibility check. *)
Lemma try_candidate_cost_only (i j : nat) (z z_ : Z) (st : PairSearch) (a : list Z) :
  cost_only (network (engine st)) ->
  allocation (network (engine st)) = a ->
  (py_sum_int (list_set j z_ (list_set i z a)) <= Z.land (budget (engine st)) 1)%Z ->
  exists st',
    try_candidate Numpy2 i j z z_ st = Ok st' /\
    cost_only (network (engine st')) /\
    allocation (network (engine st')) = list_set j z_ (list_set i z a) /\
    budget (engine st') = budget (engine st) /\
    local_search_history (engine st') = local_search_history (engine st) /\
    if Rgt_dec (- IZR (py_sum_int (list_set j z_ (list_set i z a)))) (best_obj_val st)
    then best_solution st' = (z, z_) /\
         best_obj_val st' = - IZR (py_sum_int (list_set j z_ (list_set i z a)))
    else best_solution st' = best_solution st /\ best_obj_val st' = best_obj_val st.
Proof.
  intros Hc Ha Hb.
  set (net1 := assign_stations j z_ (assign_stations i z (network (engine st)))).
  assert (Hc1 : cost_only net1) by now apply cost_only_assign, cost_only_assign.
  assert (Ha1 : allocation net1 = list_set j z_ (list_set i z a)).
  { unfold net1. now rewrite !allocation_assign, Ha. }
  assert (Hc2 : cost_only (update_effective_arrival_rates net1))
    by now apply cost_only_update.
  assert (Hp : total_profit (update_effective_arrival_rates net1)
               = - IZR (py_sum_int (list_set j z_ (list_set i z a)))).
  { now rewrite total_profit_cost_only, update_allocation, Ha1. }
  unfold try_candidate. cbv zeta. fold net1.
  rewrite _is_feasible_numpy2. cbn [network set_network budget bind].
  unfold total_charging_stations. fold (allocation net1). rewrite Ha1.
  apply Z.leb_le in Hb. rewrite Hb. rewrite Hp.
  destruct (Rgt_dec _ _); eexists; (split; [reflexivity|]);
    cbn [engine network set_network budget local_search_history
         best_solution best_obj_val];
    rewrite update_allocation, Ha1; repeat split; auto.
Qed.

Lemma moving_network_cost_only : cost_only moving_network.
Proof. repeat constructor. Qed.

(** X29: with numpy 2, on the two sites holding 0 and 1 stations, the call on
    the second and the first site takes the station away: the candidate
    (0, 0) is feasible and costs nothing, against a profit of -1 before the
    call; the call returns 0 and leaves the allocation [0; 0]. *)
Theorem _optimize_pair_moving_engine :
  exists self' best,
    _optimize_pair Numpy2 moving_engine 1 0 = Ok (self', best) /\
    best = 0 /\
    total_profit (network moving_engine) = -1 /\
    allocation (network moving_engine) = [0; 1]%Z /\
    allocation (network self') = [0; 0]%Z.
Proof.
  assert (Hp0 : total_profit (network moving_engine) = -1).
  { rewrite total_profit_cost_only by apply moving_network_cost_only.
    change (py_sum_int (allocation (network moving_engine))) with 1%Z. lra. }
  unfold _optimize_pair.
  change (nth_error (sites (network moving_engine)) 1) with (Some (costly_site 1 0 1)).
  change (nth_error (sites (network moving_engine)) 0) with (Some (costly_site 0 0 0)).
  cbv beta iota zeta.
  cbn [num_charging_stations min_capacity max_capacity costly_site fst snd].
  change (py_range 0 (1 + 1)) with [0; 1]%Z.
  cbn [for_in].
  change (py_range 0 (Z.min 0 (1 + 0 - 0) + 1)) with [0]%Z.
  change (py_range 0 (Z.min 0 (1 + 0 - 1) + 1)) with [0]%Z.
  cbn [for_in].
  destruct (try_candidate_cost_only 1 0 0 0
              (mkPairSearch moving_engine (1, 0)%Z (total_profit (network moving_engine)))
              [0; 1]%Z)
    as (st1 & -> & Hc1 & Ha1 & Hb1 & Hh1 & Hs1);
    [apply moving_network_cost_only | reflexivity | cbn; lia |].
  cbn [bind]. cbn [best_obj_val list_set] in Hs1.
  change (py_sum_int [0; 0]%Z) with 0%Z in Hs1. rewrite Hp0 in Hs1.
  destruct (Rgt_dec (- 0) (-1)) as [_|Hn]; [|exfalso; apply Hn; lra].
  destruct Hs1 as [Hs1 Ho1].
  destruct (try_candidate_cost_only 1 0 1 0 st1 [0; 0]%Z)
    as (st2 & -> & Hc2 & Ha2 & Hb2 & Hh2 & Hs2);
    [exact Hc1 | exact Ha1 | rewrite Hb1; cbn; lia |].
  cbn [bind]. cbn [list_set] in Hs2.
  change (py_sum_int [0; 1]%Z) with 1%Z in Hs2. rewrite Ho1 in Hs2.
  destruct (Rgt_dec (- (1)) (- 0)) as [Hgt|_]; [exfalso; unfold Rgt in Hgt; lra|].
  destruct Hs2 as [Hs2 Ho2].
  eexists; eexists. split; [reflexivity|].
  split; [rewrite Ho2; lra|].
  split; [exact Hp0|]. split; [reflexivity|].
  cbn [network set_network].
  rewrite update_allocation, !allocation_assign, Ha2, Hs2, Hs1. reflexivity.
Qed.

(** ** The local search *)

(** *** The draw step *)

Lemma nth_map_default {A B : Type} (f : A -> B) (l : list A) (n : nat) (d : A) (d' : B) :
  f d = d' -> nth n (map f l) d' = f (nth n l d).
Proof. intros <-. apply map_nth. Qed.

Lemma length_list_set {A : Type} (i : nat) (x : A) (l : list A) :
  length (list_set i x l) = length l.
Proof.
  revert i; induction l as [|y l IH]; intros [|i]; simpl; auto.
Qed.


Lemma possible_draw_row (self : OptimizedEVChargingNetwork) (d : nat * nat) :
  possible_draw self d ->
  (fst d < length (distance_matrix (network self)))%nat.
Proof.
  intros (Hi & Hlen & _).
  destruct (Nat.lt_ge_cases (fst d) (length (distance_matrix (network self))))
    as [H|H]; [exact H|].
  unfold sampling_probabilities, sampling_weights in Hlen.
  rewrite length_map, length_list_set, length_map, nth_overflow in Hlen by exact H.
  simpl in Hlen. lia.
Qed.

Lemma possible_draw_weights (self : OptimizedEVChargingNetwork) (d : nat * nat) :
  possible_draw self d -> np_sum (sampling_weights self (fst d)) <> 0.
Proof.
  intros (_ & _ & _ & Hp) Hz. unfold sampling_probabilities in Hp.
  cbv zeta in Hp. rewrite Hz in Hp.
  rewrite (nth_map_default (fun x => x / 0) _ _ 0 0) in Hp
    by (unfold Rdiv; ring).
  unfold Rdiv in Hp. rewrite Rinv_0, Rmult_0_r in Hp. lra.
Qed.

Lemma possible_draw_no_negative (self : OptimizedEVChargingNetwork) (d : nat * nat) :
  possible_draw self d ->
  existsb negative (sampling_probabilities self (fst d)) = false.
Proof.
  intros (_ & _ & Hall & _).
  induction Hall as [|p l Hp Hl IH]; [reflexivity|].
  cbn [existsb]. rewrite IH. unfold negative.
  destruct (Rlt_dec p 0); [lra|reflexivity].
Qed.


(** The draw step passes on a possible draw. *)
Lemma _local_search_iteration_draws
      (v : NumpyVersion) (self : OptimizedEVChargingNetwork) (d : nat * nat) :
  possible_draw self d ->
  _local_search_iteration v d self
  = (r <- _optimize_pair v self (snd d) (snd d) ;; Ok (append_history (snd r) (fst r))).
Proof.
  intros Hd. unfold _local_search_iteration, local_search_pair. cbv zeta. cbn [fst snd].
  pose proof (possible_draw_row self d Hd) as Hrow.
  pose proof (possible_draw_weights self d Hd) as Hw.
  rewrite (possible_draw_no_negative self d Hd).
  destruct Hd as (Hi & Hlen & _).
  destruct (Nat.eqb_spec (length (sites (network self))) 0) as [E|_]; [lia|].
  destruct (Nat.leb_spec (length (distance_matrix (network self))) (fst d)) as [E|_];
    [lia|].
  rewrite Hlen, Nat.eqb_refl. cbn [negb].
  destruct (Req_dec_T _ _) as [E|_]; [contradiction|]. reflexivity.
Qed.

(** Without a second site there is nothing to draw: when the weights of the
    row sum to zero the iteration stops with an exception before the pair
    search starts. *)
Lemma _local_search_iteration_raises
      (v : NumpyVersion) (self : OptimizedEVChargingNetwork) (d : nat * nat) :
  np_sum (sampling_weights self (fst d)) = 0 ->
  exists e, _local_search_iteration v d self = Raise e /\
            (e = ValueError \/ e = IndexError).
Proof.
  intros Hz. unfold _local_search_iteration. cbv zeta.
  destruct (_ =? 0)%nat; [eauto|].
  destruct (_ <=? _)%nat; [eauto|].
  destruct (negb _); [eauto|].
  destruct (Req_dec_T _ _) as [_|E]; [eauto|contradiction].
Qed.

(** X28: on a network of one site, with its 1 x 1 distance matrix, an
    iteration of the local search raises [ValueError]: the only weight is set
    to zero, so the weights sum to zero and there is no second site to
    draw. *)
Theorem _local_search_iteration_single_site
        (v : NumpyVersion) (self : OptimizedEVChargingNetwork) (j : nat) :
  length (sites (network self)) = 1%nat ->
  square_matrix 1 (distance_matrix (network self)) ->
  _local_search_iteration v (0%nat, j) self = Raise ValueError.
Proof.
  intros Hn [Hrows Hcols].
  specialize (Hcols 0%nat Nat.lt_0_1).
  unfold _local_search_iteration, sampling_probabilities, sampling_weights.
  cbv zeta. cbn [fst snd]. rewrite Hn.
  destruct (distance_matrix (network self)) as [|row [|]]; try discriminate.
  cbn [nth] in Hcols. destruct row as [|x [|]]; try discriminate.
  cbn [length Nat.eqb Nat.leb map list_set nth negb].
  destruct (Req_dec_T _ _) as [_|E]; [reflexivity|].
  exfalso. apply E. unfold np_sum. cbn [fold_left]. lra.
Qed.

Lemma _local_search_iteration_single_site_witness :
  length (sites (network feasible_engine)) = 1%nat /\
  _local_search_iteration Numpy2 (0%nat, 0%nat) feasible_engine = Raise ValueError.
Proof.
  split; [reflexivity|].
  apply _local_search_iteration_single_site.
  - reflexivity.
  - split; [reflexivity|]. intros i Hi.
    destruct i as [|i]; [reflexivity|lia].
Defined.

(** *** One iteration *)


Lemma moving_engine_draw : possible_draw moving_engine (0%nat, 1%nat).
Proof.
  unfold possible_draw, sampling_probabilities, sampling_weights, np_sum.
  cbn [fst snd moving_engine moving_network network sites distance_matrix
       sampling_temperature length nth map list_set fold_left].
  replace (0 + 0 + 1 * 1) with 1 by ring.
  split; [lia|]. split; [reflexivity|].
  split; [repeat constructor; lra|lra].
Qed.





(** *** The whole search *)





(** X30: with numpy 2, on the two sites holding 0 and 1 stations, the
    iteration with draws 0 and 1 pairs the second site with itself and takes
    its station away: the four candidates (0, 0), (0, 1), (1, 0), (1, 1) are
    feasible, each leaves the site the second count of the pair, and (0, 0)
    is the first to cost nothing; the history receives the value 0. *)
Theorem _local_search_iteration_moving_engine :
  exists self' h,
    _local_search_iteration Numpy2 (0%nat, 1%nat) moving_engine = Ok self' /\
    allocation (network moving_engine) = [0; 1]%Z /\
    allocation (network self') = [0; 0]%Z /\
    local_search_history self' = [h] /\ h = 0.
Proof.
  assert (Hp0 : total_profit (network moving_engine) = -1).
  { rewrite total_profit_cost_only by apply moving_network_cost_only.
    change (py_sum_int (allocation (network moving_engine))) with 1%Z. lra. }
  rewrite (_local_search_iteration_draws _ _ _ moving_engine_draw). cbn [snd].
  unfold _optimize_pair.
  change (nth_error (sites (network moving_engine)) 1) with (Some (costly_site 1 0 1)).
  cbv beta iota zeta.
  cbn [num_charging_stations min_capacity max_capacity costly_site fst snd].
  change (py_range 0 (1 + 1)) with [0; 1]%Z.
  cbn [for_in].
  change (py_range 0 (Z.min 1 (1 + 1 - 0) + 1)) with [0; 1]%Z.
  change (py_range 0 (Z.min 1 (1 + 1 - 1) + 1)) with [0; 1]%Z.
  cbn [for_in].
  destruct (try_candidate_cost_only 1 1 0 0
              (mkPairSearch moving_engine (1, 1)%Z (total_profit (network moving_engine)))
              [0; 1]%Z)
    as (st1 & -> & Hc1 & Ha1 & Hb1 & Hh1 & Hs1);
    [apply moving_network_cost_only | reflexivity | cbn; lia |].
  cbn [bind]. cbn [best_obj_val list_set] in Hs1, Ha1.
  change (py_sum_int [0; 0]%Z) with 0%Z in Hs1. rewrite Hp0 in Hs1.
  destruct (Rgt_dec (- 0) (-1)) as [_|Hn]; [|exfalso; apply Hn; lra].
  destruct Hs1 as [Hs1 Ho1].
  destruct (try_candidate_cost_only 1 1 0 1 st1 [0; 0]%Z)
    as (st2 & -> & Hc2 & Ha2 & Hb2 & Hh2 & Hs2);
    [exact Hc1 | exact Ha1 | rewrite Hb1; cbn; lia |].
  cbn [bind]. cbn [list_set] in Hs2, Ha2.
  change (py_sum_int [0; 1]%Z) with 1%Z in Hs2. rewrite Ho1 in Hs2.
  destruct (Rgt_dec (- (1)) (- 0)) as [Hgt|_]; [exfalso; unfold Rgt in Hgt; lra|].
  destruct Hs2 as [Hs2 Ho2].
  destruct (try_candidate_cost_only 1 1 1 0 st2 [0; 1]%Z)
    as (st3 & -> & Hc3 & Ha3 & Hb3 & Hh3 & Hs3);
    [exact Hc2 | exact Ha2 | rewrite Hb2, Hb1; cbn; lia |].
  cbn [bind]. cbn [list_set] in Hs3, Ha3.
  change (py_sum_int [0; 0]%Z) with 0%Z in Hs3. rewrite Ho2 in Hs3.
  destruct (Rgt_dec (- 0) (- 0)) as [Hgt|_]; [exfalso; unfold Rgt in Hgt; lra|].
  destruct Hs3 as [Hs3 Ho3].
  destruct (try_candidate_cost_only 1 1 1 1 st3 [0; 0]%Z)
    as (st4 & -> & Hc4 & Ha4 & Hb4 & Hh4 & Hs4);
    [exact Hc3 | exact Ha3 | rewrite Hb3, Hb2, Hb1; cbn; lia |].
  cbn [bind]. cbn [list_set] in Hs4, Ha4.
  change (py_sum_int [0; 1]%Z) with 1%Z in Hs4. rewrite Ho3 in Hs4.
  destruct (Rgt_dec (- (1)) (- 0)) as [Hgt|_]; [exfalso; unfold Rgt in Hgt; lra|].
  destruct Hs4 as [Hs4 Ho4].
  cbn [fst snd]. eexists; eexists. split; [reflexivity|].
  split; [reflexivity|].
  cbn [append_history network set_network local_search_history].
  split; [|split].
  - rewrite update_allocation, !allocation_assign, Ha4, Hs4, Hs3, Hs2, Hs1.
    reflexivity.
  - rewrite Hh4, Hh3, Hh2, Hh1. reflexivity.
  - rewrite Ho4; lra.
Qed.

(** ** Relaxation: marginal profits *)







(** ** Local search: the weights of the second draw *)

Lemma np_sum_scale (c : R) (l : list R) :
  np_sum (map (fun x => x / c) l) = np_sum l / c.
Proof.
  change np_sum with py_sum. induction l as [|x l IH].
  - simpl. rewrite py_sum_nil. unfold Rdiv. ring.
  - cbn [map]. rewrite !py_sum_cons, IH. unfold Rdiv. ring.
Qed.

(** X20: when the sampling weights of an iteration do not sum to zero, the
    probabilities of the second draw sum to 1, the site drawn first has
    probability 0, and every other site is weighted by its distance to the
    first times the sampling temperature. *)
Theorem sampling_probabilities_distribution
        (self : OptimizedEVChargingNetwork) (i : nat) :
  np_sum (sampling_weights self i) <> 0 ->
  np_sum (sampling_probabilities self i) = 1 /\
  nth i (sampling_probabilities self i) 0 = 0 /\
  forall k, k <> i ->
    nth k (sampling_weights self i) 0
    = matrix_get (distance_matrix (network self)) i k * sampling_temperature self.
Proof.
  intros Hsum. unfold sampling_probabilities. cbv zeta.
  split; [|split].
  - rewrite np_sum_scale. now apply Rinv_r.
  - set (f := fun x => x / np_sum (sampling_weights self i)).
    replace 0 with (f 0) at 1 by (unfold f, Rdiv; ring).
    rewrite map_nth. unfold f. rewrite sampling_weight_self. unfold Rdiv. ring.
  - intros k Hk. unfold sampling_weights, matrix_get.
    rewrite nth_list_set_neq by exact Hk.
    set (g := fun d => d * sampling_temperature self).
    replace 0 with (g 0) at 1 by (unfold g; ring).
    now rewrite map_nth.
Qed.

Lemma sampling_probabilities_distribution_witness :
  np_sum (sampling_probabilities two_site_engine 0) = 1 /\
  nth 0 (sampling_probabilities two_site_engine 0) 0 = 0 /\
  forall k, k <> 0%nat ->
    nth k (sampling_weights two_site_engine 0) 0
    = matrix_get (distance_matrix (network two_site_engine)) 0 k
      * sampling_temperature two_site_engine.
Proof.
  apply sampling_probabilities_distribution.
  unfold sampling_weights, np_sum. simpl. lra.
Defined.

(** ** Coverage: neighbourhoods *)

Section CoverageFacts.

Variable haversine : R * R -> R * R -> R.

Lemma neighborhood_loop (self : ReferenceGeoLocation) (gs : list GeoLocation)
      (k : nat) (found : list nat) :
  for_in (combine (seq k (length gs)) (map GeoObject gs))
         (neighborhood_step haversine self) found
  = Ok (found ++ map fst (filter (fun p => within_radius haversine self (snd p))
                                 (combine (seq k (length gs)) gs))).
Proof.
  revert k found. induction gs as [|g gs IH]; intros k found; simpl.
  - now rewrite app_nil_r.
  - unfold neighborhood_step at 1, distance_to, within_radius, distance.
    cbn [bind snd fst attr_lat attr_long].
    destruct (Rlt_dec _ _); cbn [bind]; rewrite IH.
    + cbn [map fst]. now rewrite <- app_assoc.
    + reflexivity.
Qed.

Lemma In_combine_seq {A : Type} (l : list A) (k i : nat) (x : A) :
  In (i, x) (combine (seq k (length l)) l)
  <-> (k <= i)%nat /\ nth_error l (i - k) = Some x.
Proof.
  revert k. induction l as [|y l IH]; intros k; simpl.
  - split; [tauto|]. intros [_ H]. destruct (i - k)%nat; discriminate.
  - rewrite IH. split.
    + intros [H | [H1 H2]].
      * injection H as -> ->. rewrite Nat.sub_diag. split; [lia|reflexivity].
      * split; [lia|]. replace (i - k)%nat with (S (i - S k)) by lia. exact H2.
    + intros [H1 H2]. destruct (Nat.eq_dec i k) as [->|Hne].
      * rewrite Nat.sub_diag in H2. injection H2 as ->. now left.
      * right. split; [lia|].
        replace (i - k)%nat with (S (i - S k)) in H2 by lia. exact H2.
Qed.

Lemma NoDup_map_fst_filter {A B : Type} (p : A * B -> bool) (l : list (A * B)) :
  NoDup (map fst l) -> NoDup (map fst (filter p l)).
Proof.
  induction l as [|x l IH]; simpl; intros H; [constructor|].
  inversion H as [|? ? Hnin Hnd]; subst.
  destruct (p x); [|now apply IH]. simpl. constructor; [|now apply IH].
  intros Hin. apply Hnin. apply in_map_iff in Hin.
  destruct Hin as (y & Hy & Hin). apply filter_In in Hin.
  apply in_map_iff. exists y. tauto.
Qed.

Lemma map_fst_combine_seq {A : Type} (l : list A) (k : nat) :
  map fst (combine (seq k (length l)) l) = seq k (length l).
Proof.
  revert k. induction l as [|y l IH]; intros k; simpl; [reflexivity|].
  now rewrite IH.
Qed.

(** X21: handed a list of locations, [update_neighborhood_sites] returns; the
    neighbourhood it stores holds exactly the indices of the locations
    strictly closer than the radius, each once, whatever neighbourhood was
    stored before; the other attributes are kept. *)
Theorem update_neighborhood_sites_spec
        (self : ReferenceGeoLocation) (gs : list GeoLocation) :
  exists self',
    update_neighborhood_sites haversine self (map GeoObject gs) = Ok self' /\
    ref_location self' = ref_location self /\
    neighborhood_radius self' = neighborhood_radius self /\
    min_supply self' = min_supply self /\
    NoDup (neighborhood_sites self') /\
    forall i, In i (neighborhood_sites self') <->
              exists g, nth_error gs i = Some g /\
                        distance haversine (ref_location self) g
                        < neighborhood_radius self.
Proof.
  unfold update_neighborhood_sites. rewrite length_map, neighborhood_loop.
  cbn [bind app]. eexists. split; [reflexivity|].
  cbn [ref_location neighborhood_radius min_supply neighborhood_sites].
  repeat split.
  - apply NoDup_map_fst_filter. rewrite map_fst_combine_seq. apply seq_NoDup.
  - intros Hin. apply in_map_iff in Hin. destruct Hin as ([i' g] & Hi & Hin).
    cbn [fst] in Hi. subst i'. apply filter_In in Hin. destruct Hin as [Hin Hp].
    apply In_combine_seq in Hin. destruct Hin as [_ Hnth].
    rewrite Nat.sub_0_r in Hnth. exists g. split; [exact Hnth|].
    unfold within_radius in Hp. cbn [snd] in Hp.
    now destruct (Rlt_dec _ _).
  - intros (g & Hnth & Hd). apply in_map_iff. exists (i, g). split; [reflexivity|].
    apply filter_In. split.
    + apply In_combine_seq. rewrite Nat.sub_0_r. split; [lia|exact Hnth].
    + unfold within_radius. cbn [snd]. now destruct (Rlt_dec _ _).
Qed.

Lemma map_result_raises {A B : Type} (f : A -> PyResult B) (e : PyError)
      (x : A) (l : list A) :
  f x = Raise e -> map_result f (x :: l) = Raise e.
Proof. intros H. simpl. now rewrite H. Qed.

(** X22: the engine hands its sites, not their locations, to every reference
    location, and a site has no [lat] attribute: with at least one reference
    location and one site the constructor raises [AttributeError]. *)
Theorem new_optimized_network_raises
        (ss : list EVChargingSite) (refs : list ReferenceGeoLocation)
        (b : Z) (g eps temperature : R) (iters : nat) :
  ss <> [] -> refs <> [] ->
  new_optimized_network haversine ss refs b g eps temperature iters
  = Raise AttributeError.
Proof.
  intros Hss Hrefs. unfold new_optimized_network, _update_neighborhood_sites.
  cbn [reference_locations network].
  destruct refs as [|location refs]; [congruence|].
  assert (Hlen : sites (new_network haversine ss g) <> []).
  { intros H. apply (f_equal (@length _)) in H.
    unfold new_network in H. rewrite update_length in H. cbn [sites] in H.
    destruct ss; [congruence|discriminate]. }
  destruct (sites (new_network haversine ss g)) as [|s0 rest]; [congruence|].
  rewrite (map_result_raises _ AttributeError); [reflexivity|].
  reflexivity.
Qed.

(** Without reference locations the constructor returns the network built by
    the base class, with an empty history. *)
Lemma new_optimized_network_no_references
      (ss : list EVChargingSite) (b : Z) (g eps temperature : R) (iters : nat) :
  new_optimized_network haversine ss [] b g eps temperature iters
  = Ok (mkOptimized (new_network haversine ss g) [] b eps temperature iters []).
Proof. reflexivity. Qed.

End CoverageFacts.

Lemma update_neighborhood_sites_spec_example :
  exists self',
    update_neighborhood_sites longitude_gap centre (map GeoObject three_locations)
    = Ok self' /\
    neighborhood_sites self' = [0%nat; 1%nat].
Proof.
  unfold update_neighborhood_sites, three_locations, centre.
  cbn [map length seq combine for_in].
  unfold neighborhood_step, distance_to, longitude_gap.
  cbn [bind attr_lat attr_long ref_location neighborhood_radius snd fst lat long origin].
  assert (H0 : Rabs (0 - 0) = 0) by (unfold Rabs; destruct (Rcase_abs _); lra).
  assert (H1 : Rabs (0 - 1) = 1) by (unfold Rabs; destruct (Rcase_abs _); lra).
  assert (H3 : Rabs (0 - 3) = 3) by (unfold Rabs; destruct (Rcase_abs _); lra).
  rewrite H0, H1, H3.
  destruct (Rlt_dec 0 2); [|lra]. cbn [bind app].
  destruct (Rlt_dec 1 2); [|lra]. cbn [bind app].
  destruct (Rlt_dec 3 2); [lra|]. cbn [bind].
  eexists. split; reflexivity.
Qed.

Lemma new_optimized_network_raises_witness :
  new_optimized_network longitude_gap three_sites [centre] 4 1 (5 / 100) 1 100
  = Raise AttributeError.
Proof.
  apply new_optimized_network_raises; discriminate.
Defined.

(** ** The location factory *)

Lemma grid_outer_loop_runs_on (fuel : nat) (polygon : Polygon)
      (min_lat max_long radius long : R) (locations : list GeoLocation) :
  min_lat < max_long ->
  grid_outer_loop fuel polygon min_lat max_long radius min_lat long locations = None.
Proof.
  intros H. revert long locations.
  induction fuel as [|fuel IH]; intros long locations; simpl; [reflexivity|].
  destruct (Rlt_dec min_lat max_long); [|lra].
  destruct (grid_inner_loop fuel polygon max_long radius min_lat long locations)
    as [[long' locations']|]; [apply IH|reflexivity].
Qed.

(** X23: [get_uniform_locations_grid] tests the latitude against the largest
    longitude and resets the latitude after every row.  When the smallest
    latitude of the bounding box is not below its largest longitude the grid
    is empty; otherwise the outer loop never ends, whatever the number of
    loop tests allowed. *)
Theorem get_uniform_locations_grid_empty_or_endless
        (polygon : Polygon) (neighborhood_radius : R)
        (min_long min_lat max_long max_lat : R) :
  bounds polygon = (min_long, min_lat, max_long, max_lat) ->
  (max_long <= min_lat ->
   forall fuel, get_uniform_locations_grid (S fuel) polygon neighborhood_radius
                = Some []) /\
  (min_lat < max_long ->
   forall fuel, get_uniform_locations_grid fuel polygon neighborhood_radius = None).
Proof.
  intros Hb. unfold get_uniform_locations_grid. rewrite Hb. split.
  - intros H fuel. simpl. destruct (Rlt_dec min_lat max_long); [lra|reflexivity].
  - intros H fuel. now apply grid_outer_loop_runs_on.
Qed.

Lemma get_uniform_locations_grid_empty_or_endless_witness :
  (-74 <= 40 ->
   forall fuel, get_uniform_locations_grid (S fuel) western_box 1 = Some []) /\
  (40 < -74 ->
   forall fuel, get_uniform_locations_grid fuel western_box 1 = None).
Proof.
  apply (get_uniform_locations_grid_empty_or_endless western_box 1 (-75) 40 (-74) 41).
  reflexivity.
Defined.

(** The locations accepted among the draws, in the order drawn. *)
Lemma random_locations_loop_spec (polygon : Polygon) (num_locations : Z)
      (draws : list (R * R)) (locations : list GeoLocation) :
  let accepted := filter (inside polygon) (map (sampled_location polygon) draws) in
  let missing := Z.to_nat (num_locations - Z.of_nat (length locations)) in
  random_locations_loop polygon num_locations draws locations
  = if (missing <=? length accepted)%nat
    then Some (locations ++ firstn missing accepted)
    else None.
Proof.
  revert locations. induction draws as [|draw rest IH]; intros locations accepted missing.
  - cbn [random_locations_loop]. subst accepted missing. cbn [map filter length].
    destruct (Z.ltb_spec (Z.of_nat (length locations)) num_locations) as [Hlt|Hge].
    + replace (Z.to_nat (num_locations - Z.of_nat (length locations)) <=? 0)%nat
        with false; [reflexivity|].
      symmetry. apply Nat.leb_gt. lia.
    + replace (Z.to_nat (num_locations - Z.of_nat (length locations))) with 0%nat by lia.
      cbn. now rewrite app_nil_r.
  - cbn [random_locations_loop].
    destruct (Z.ltb_spec (Z.of_nat (length locations)) num_locations) as [Hlt|Hge].
    + rewrite IH. subst accepted missing. cbn [map filter].
      destruct (inside polygon (sampled_location polygon draw)) eqn:Hin.
      * rewrite length_app. cbn [length].
        set (acc := filter (inside polygon) (map (sampled_location polygon) rest)).
        replace (Z.to_nat (num_locations - Z.of_nat (length locations)))
          with (S (Z.to_nat (num_locations - Z.of_nat (length locations + 1)))) by lia.
        cbn [Nat.leb firstn].
        destruct (_ <=? length acc)%nat; [|reflexivity].
        now rewrite <- app_assoc.
      * reflexivity.
    + subst accepted missing.
      replace (Z.to_nat (num_locations - Z.of_nat (length locations))) with 0%nat by lia.
      cbn. now rewrite app_nil_r.
Qed.

Lemma In_firstn_In {A : Type} (n : nat) (l : list A) (x : A) :
  In x (firstn n l) -> In x l.
Proof.
  intros H. rewrite <- (firstn_skipn n l). apply in_or_app. now left.
Qed.

(** X24: [get_random_locations] returns exactly when the draws it is given
    produce at least [num_locations] points inside the polygon; it then
    returns the first [num_locations] of them in the order drawn, so every
    location returned lies inside the polygon. *)
Theorem get_random_locations_spec
        (polygon : Polygon) (num_locations : Z) (draws : list (R * R)) :
  let accepted := filter (inside polygon) (map (sampled_location polygon) draws) in
  (Z.to_nat num_locations <= length accepted)%nat ->
  get_random_locations polygon num_locations draws
  = Some (firstn (Z.to_nat num_locations) accepted) /\
  length (firstn (Z.to_nat num_locations) accepted) = Z.to_nat num_locations /\
  Forall (fun g => inside polygon g = true) (firstn (Z.to_nat num_locations) accepted).
Proof.
  intros accepted Hlen. unfold get_random_locations.
  rewrite random_locations_loop_spec. cbn [length Z.of_nat app].
  rewrite Z.sub_0_r. fold accepted.
  replace (Z.to_nat num_locations <=? length accepted)%nat with true
    by (symmetry; now apply Nat.leb_le).
  split; [reflexivity|]. split.
  - apply firstn_length_le. exact Hlen.
  - apply Forall_forall. intros g Hg. apply In_firstn_In in Hg.
    unfold accepted in Hg. apply filter_In in Hg. tauto.
Qed.

Lemma get_random_locations_spec_witness :
  let accepted :=
    filter (inside unit_square)
           (map (sampled_location unit_square) [(1 / 2, 1 / 2); (1 / 4, 3 / 4)]) in
  get_random_locations unit_square 1 [(1 / 2, 1 / 2); (1 / 4, 3 / 4)]
  = Some (firstn (Z.to_nat 1) accepted) /\
  length (firstn (Z.to_nat 1) accepted) = Z.to_nat 1 /\
  Forall (fun g => inside unit_square g = true) (firstn (Z.to_nat 1) accepted).
Proof.
  apply get_random_locations_spec. simpl. lia.
Defined.

(** When the draws give fewer accepted points than asked for, the loop has
    not ended when they are used up. *)
Lemma get_random_locations_short (polygon : Polygon) (num_locations : Z)
      (draws : list (R * R)) :
  (length (filter (inside polygon) (map (sampled_location polygon) draws))
   < Z.to_nat num_locations)%nat ->
  get_random_locations polygon num_locations draws = None.
Proof.
  intros H. unfold get_random_locations.
  rewrite random_locations_loop_spec. cbn [length Z.of_nat].
  rewrite Z.sub_0_r.
  replace (_ <=? _)%nat with false; [reflexivity|].
  symmetry. now apply Nat.leb_gt.
Qed.

(** ** The network factory: the correlation matrix *)

Lemma for_in_app {S A : Type} (l1 l2 : list A) (body : A -> S -> PyResult S) (s : S) :
  for_in (l1 ++ l2) body s = s' <- for_in l1 body s ;; for_in l2 body s'.
Proof.
  revert s. induction l1 as [|x l1 IH]; intros s; simpl; [reflexivity|].
  destruct (body x s) as [s1|e]; simpl; [apply IH|reflexivity].
Qed.

Section CorrelationFacts.

Variable haversine : R * R -> R * R -> R.

(** A row of the loop: the columns below [num_sites] are written, the column
    [num_sites] raises. *)
Lemma correlation_row_raises (g : R) (site_location : list GeoLocation)
      (i : nat) (m : list (list R)) :
  (i < length site_location)%nat ->
  for_in (seq 0 (length site_location + 1))
         (correlation_step haversine g site_location i) m
  = Raise IndexError.
Proof.
  intros Hi. rewrite Nat.add_1_r, seq_S, for_in_app. cbn [Nat.add].
  assert (Hrow : exists m', for_in (seq 0 (length site_location))
                                   (correlation_step haversine g site_location i) m
                            = Ok m' /\ True).
  { apply for_in_invariant with (P := fun _ => True); [|exact I].
    intros j m0 Hj _. apply in_seq in Hj.
    unfold correlation_step, correlation_entry, list_index.
    destruct (nth_error site_location i) eqn:Ei.
    2:{ apply nth_error_None in Ei. lia. }
    destruct (nth_error site_location j) eqn:Ej.
    2:{ apply nth_error_None in Ej. lia. }
    cbn [bind]. eexists. split; [reflexivity|exact I]. }
  destruct Hrow as (m' & -> & _). cbn [bind for_in].
  unfold correlation_step, correlation_entry, list_index.
  destruct (nth_error site_location i) eqn:Ei.
  2:{ apply nth_error_None in Ei. lia. }
  replace (nth_error site_location (length site_location)) with (@None GeoLocation).
  - reflexivity.
  - symmetry. apply nth_error_None. lia.
Qed.

(** X25: the inner loop of [generate_sites] runs one index too far: for any
    positive number of drawn locations the construction of the correlation
    matrix raises [IndexError], in the first row, at column [num_sites]. *)
Theorem correlation_matrix_raises (g : R) (site_location : list GeoLocation) :
  site_location <> [] ->
  correlation_matrix haversine g site_location = Raise IndexError.
Proof.
  intros Hne. unfold correlation_matrix.
  destruct (length site_location) as [|k] eqn:Hlen.
  - destruct site_location; [congruence|discriminate].
  - cbn [seq for_in]. rewrite <- Hlen.
    rewrite correlation_row_raises; [reflexivity|lia].
Qed.

Lemma correlation_matrix_no_sites (g : R) :
  correlation_matrix haversine g [] = Ok [].
Proof. reflexivity. Qed.

End CorrelationFacts.

Lemma correlation_matrix_raises_witness :
  correlation_matrix longitude_gap 1 three_locations = Raise IndexError.
Proof.
  apply correlation_matrix_raises. discriminate.
Defined.

(** ** Site: the float range of expected_utilization *)

Lemma math_factorial_zero : math_factorial 0 = 1%Z.
Proof. reflexivity. Qed.






Lemma float_of_int_factorial_171 :
  float_of_int (math_factorial 171) = Raise OverflowError.
Proof.
  unfold float_of_int.
  assert (H : (Z.abs (math_factorial 171) <? float_limit)%Z = false)
    by (vm_compute; reflexivity).
  now rewrite H.
Qed.

Lemma utilization_term_error (u : R) (k m : Z) (e : PyError) :
  utilization_term u k m = Raise e -> e = OverflowError.
Proof.
  unfold utilization_term, float_pow, float_of_int.
  destruct (Rlt_dec _ _); cbn [bind]; [|congruence].
  destruct (_ <? _)%Z; cbn [bind]; congruence.
Qed.

Lemma utilization_term_171 (u : R) :
  utilization_term u 171 171 = Raise OverflowError.
Proof.
  unfold utilization_term, float_pow.
  destruct (Rlt_dec _ _); cbn [bind]; [|reflexivity].
  now rewrite float_of_int_factorial_171.
Qed.



Lemma sum_terms_raises (term : Z -> PyResult R) (ks : list Z) (k0 : Z) :
  (forall k e, term k = Raise e -> e = OverflowError) ->
  In k0 ks -> term k0 = Raise OverflowError ->
  sum_terms term ks = Raise OverflowError.
Proof.
  intros Honly Hin H0. unfold sum_terms. generalize 0.
  induction ks as [|k ks IH]; intros acc; [destruct Hin|].
  cbn [for_in]. destruct (term k) as [t|e] eqn:Ek; cbn [bind].
  - destruct Hin as [->|Hin]; [congruence|]. now apply IH.
  - now rewrite (Honly k e Ek).
Qed.

(** A site with 171 stations or more: the factorial of 171 does not convert. *)
Lemma expected_utilization_checked_overflow (s : EVChargingSite) :
  (171 <= num_charging_stations s)%Z ->
  expected_utilization_checked s = Raise OverflowError.
Proof.
  intros Hn. unfold expected_utilization_checked.
  rewrite (sum_terms_raises _ _ 171); [reflexivity| | |].
  - intros k e. apply utilization_term_error.
  - apply py_range_In. lia.
  - apply utilization_term_171.
Qed.





(** *** The sums stay in range *)









(** X27: for every site with float attributes and 171 stations or more,
    [expected_utilization] raises [OverflowError]: the factorial of 171 is an
    int too large to divide a float by. *)
Theorem expected_utilization_overflows_from_171 (s : EVChargingSite) :
  (171 <= num_charging_stations s)%Z ->
  expected_utilization_checked s = Raise OverflowError.
Proof. apply expected_utilization_checked_overflow. Qed.

Lemma expected_utilization_overflows_from_171_witness :
  expected_utilization_checked (simple_site 171 0 200) = Raise OverflowError.
Proof.
  apply expected_utilization_overflows_from_171. simpl. lia.
Defined.
